(** * ClearPath-Arduino-Pulse-Burst: the sketch and its pulse-burst protocol

    A shallow embedding of [ClearPath-Arduino-Pulse-Burst.ino].  The sketch
    drives a ClearPath motor over three output lines (Enable, Input A,
    Input B).  The board is a record holding the pin modes, the level last
    written to every pin and the chronological log of the I/O calls made;
    the sketch's functions are programs of a small state monad over it.
    The only loop of the sketch, the pulse loop of [MoveCommand], runs on
    fuel, so that its termination is a theorem and not an assumption. *)

From Stdlib Require Import ZArith QArith Lia.
From stdpp Require Import base gmap list.

Open Scope Z_scope.

(** ** The board *)

Inductive level := LOW | HIGH.

Inductive pin_mode := INPUT | OUTPUT | INPUT_PULLUP.

(** One entry per call of the Arduino core made by the sketch. *)
Inductive event :=
| PinMode (pin : Z) (mode : pin_mode)
| SerialBegin (baud : Z)
| DigitalWrite (pin : Z) (value : level)
| Delay (ms : Z).

Record board := Board {
  modes : gmap Z pin_mode;
  levels : gmap Z level;
  log : list event
}.

Definition power_on : board :=
  {| modes := ∅; levels := ∅; log := [] |}.

Definition invert (v : level) : level :=
  match v with LOW => HIGH | HIGH => LOW end.

#[global] Instance level_eq_dec : EqDecision level.
Proof. solve_decision. Defined.

#[global] Instance pin_mode_eq_dec : EqDecision pin_mode.
Proof. solve_decision. Defined.

#[global] Instance event_eq_dec : EqDecision event.
Proof. solve_decision. Defined.

(** ** Programs: state passing over the board; [None] is "out of fuel" *)

Definition M (A : Type) : Type := board -> option (A * board).

#[global] Instance M_ret : MRet M := fun A a s => Some (a, s).

#[global] Instance M_bind : MBind M := fun A B f m s =>
  match m s with
  | Some (a, s') => f a s'
  | None => None
  end.

(** What one call of the Arduino core does to the board.  [digitalWrite]
    drives the pin and takes no time of its own; [delay] blocks for [ms]
    milliseconds and touches no pin. *)
Definition perform (s : board) (e : event) : board :=
  match e with
  | PinMode pin mode =>
      {| modes := <[pin := mode]> (modes s); levels := levels s;
         log := log s ++ [e] |}
  | DigitalWrite pin value =>
      {| modes := modes s; levels := <[pin := value]> (levels s);
         log := log s ++ [e] |}
  | SerialBegin _ | Delay _ =>
      {| modes := modes s; levels := levels s; log := log s ++ [e] |}
  end.

Definition call (e : event) : M unit := fun s => Some (tt, perform s e).

Definition pinMode (pin : Z) (mode : pin_mode) : M unit := call (PinMode pin mode).
Definition Serial_begin (baud : Z) : M unit := call (SerialBegin baud).
Definition digitalWrite (pin : Z) (value : level) : M unit := call (DigitalWrite pin value).
Definition delay (ms : Z) : M unit := call (Delay ms).

(** [for (int count = init; cond(count); count = step(count)) body(count)] *)
Fixpoint for_loop (fuel : nat) (count : Z) (cond : Z -> bool) (step : Z -> Z)
    (body : Z -> M unit) : M unit :=
  match fuel with
  | O => fun _ => None
  | S fuel' =>
      if cond count
      then body count ;; for_loop fuel' (step count) cond step body
      else mret tt
  end.

(** [delay] takes an [unsigned long] (32 bits on every Arduino core): an
    [int] argument is converted modulo 2^32, a [double] argument is
    truncated towards zero (C++ leaves the conversion of a [double] outside
    the range of [unsigned long] undefined; it is reduced modulo 2^32 here).
    The [double] values of the sketch are products of an [int] and 1.5, which
    floating point computes exactly, so a rational stands for them. *)
Definition ulong_of_int (z : Z) : Z := z mod 2 ^ 32.

Definition ulong_of_double (q : Q) : Z :=
  (Qnum q ÷ Z.pos (Qden q)) mod 2 ^ 32.

(** ** The sketch *)

(** Pin numbers, lines 60-67. *)
Definition Enable : Z := 6.
Definition Eneg : Z := 7.
Definition InputA : Z := 8.
Definition Aneg : Z := 10.
Definition InputB : Z := 9.
Definition Bneg : Z := 11.
Definition HLFB : Z := 4.
Definition Hneg : Z := 5.

(** The four settings of lines 73-76, which the user edits to match the
    motor's configuration. *)
Record settings := Settings {
  DwellTime : Z;
  HomeTime : Z;
  MinAltPulse : Z;
  ReverseDirection : bool
}.

Definition sketch_settings : settings :=
  {| DwellTime := 1000; HomeTime := 10000; MinAltPulse := 10;
     ReverseDirection := false |}.

Definition with_ReverseDirection (r : bool) (cfg : settings) : settings :=
  {| DwellTime := DwellTime cfg; HomeTime := HomeTime cfg;
     MinAltPulse := MinAltPulse cfg; ReverseDirection := r |}.

Definition with_MinAltPulse (m : Z) (cfg : settings) : settings :=
  {| DwellTime := DwellTime cfg; HomeTime := HomeTime cfg;
     MinAltPulse := m; ReverseDirection := ReverseDirection cfg |}.

(** The body of [loop] is a straight line of two kinds of statement:
    [MoveCommand(distance)] or [MoveCommand(distance, 1)] (the prototype of
    line 71 gives [AltSpeed] the default value 0) and [delay(DwellTime)]. *)
Inductive statement :=
| Move (distance : Z) (AltSpeed : bool)
| Dwell.

#[global] Instance statement_eq_dec : EqDecision statement.
Proof. solve_decision. Defined.

(** Lines 125-158. *)
Definition loop_body : list statement :=
  [ Move 1000 false;    Dwell;
    Move (-2000) true;  Dwell;
    Move 3000 false;    Dwell;
    Move (-4000) false; Dwell;
    Move 5000 true;     Dwell;
    Move (-6000) false; Dwell;
    Move 7000 false;    Dwell;
    Move (-8000) true;  Dwell;
    Move 9000 false;    Dwell;
    Move (-10000) false; Dwell;
    Move 9000 true;
    Move (-8000) false; Dwell;
    Move 7000 false;
    Move (-6000) true;  Dwell;
    Move 5000 false;
    Move (-4000) false; Dwell;
    Move 3000 true;
    Move (-2000) false; Dwell;
    Move 1000 false;    Dwell ].

Section Sketch.

(** [int] has [bits] bits, two's complement: 16 on the AVR boards, 32 on
    the ARM ones. *)
Variable bits : positive.
Variable cfg : settings.

Definition half : Z := 2 ^ (Z.pos bits - 1).
Definition INT_MIN : Z := - half.
Definition INT_MAX : Z := half - 1.

Definition is_int (z : Z) : Prop := INT_MIN <= z <= INT_MAX.

Definition wrap (z : Z) : Z := (z + half) mod (2 * half) - half.

(** Arduino.h: [#define abs(x) ((x)>0?(x):-(x))], on [int].  At [INT_MIN]
    the negation overflows, which C++ leaves undefined: what a build does
    there depends on the compiler and on how it optimises.  The model takes
    the two's-complement result, [INT_MIN] again; for every other [int] the
    macro is the absolute value whatever the build. *)
Definition abs (x : Z) : Z := if 0 <? x then x else wrap (- x).

(** Lines 81-116. *)
Definition setup : M unit :=
  pinMode Enable OUTPUT ;;
  pinMode InputA OUTPUT ;;
  pinMode InputB OUTPUT ;;
  pinMode HLFB INPUT_PULLUP ;;
  pinMode Eneg OUTPUT ;;
  pinMode Aneg OUTPUT ;;
  pinMode Bneg OUTPUT ;;
  pinMode Hneg OUTPUT ;;
  Serial_begin 9600 ;;
  digitalWrite Enable LOW ;;
  delay (ulong_of_int (DwellTime cfg)) ;;
  digitalWrite Eneg LOW ;;
  digitalWrite Aneg LOW ;;
  digitalWrite Bneg LOW ;;
  digitalWrite Hneg LOW ;;
  digitalWrite InputA LOW ;;
  digitalWrite InputB LOW ;;
  digitalWrite Enable HIGH ;;
  delay (ulong_of_int (HomeTime cfg)) ;;
  delay (ulong_of_int (DwellTime cfg)).

(** Lines 168-192. *)
Definition MoveCommand (fuel : nat) (distance : Z) (AltSpeed : bool) : M unit :=
  (if AltSpeed then
     digitalWrite Enable LOW ;;
     delay (ulong_of_double (inject_Z (MinAltPulse cfg) * 1.5)) ;;
     digitalWrite Enable HIGH ;;
     delay (ulong_of_double (inject_Z (MinAltPulse cfg) * 1.5))
   else mret tt) ;;
  (if (distance <? 0) && negb (ReverseDirection cfg)
      || (0 <? distance) && ReverseDirection cfg
   then digitalWrite InputA HIGH
   else digitalWrite InputA LOW) ;;
  for_loop fuel 0 (fun count => count <? abs distance)
    (fun count => wrap (count + 1))
    (fun _ => digitalWrite InputB HIGH ;; digitalWrite InputB LOW).

Definition execute (fuel : nat) (st : statement) : M unit :=
  match st with
  | Move distance AltSpeed => MoveCommand fuel distance AltSpeed
  | Dwell => delay (ulong_of_int (DwellTime cfg))
  end.

Definition run (fuel : nat) (script : list statement) : M unit :=
  foldr (fun st rest => execute fuel st ;; rest) (mret tt) script.

(** Lines 123-160. *)
Definition loop (fuel : nat) : M unit := run fuel loop_body.

End Sketch.

(** ** The move table of the header comment, lines 37-51

    One row per line of the table; a row with an arrow holds the two moves
    of a pulse stream "immediately following the previous".  Each move is
    the signed number of the table and whether it is marked "alt spd". *)
Definition move_table : list (list (Z * bool)) :=
  [ [(10, false)];
    [(-20, true)];
    [(30, false)];
    [(-40, false)];
    [(50, true)];
    [(-60, false)];
    [(70, false)];
    [(-80, true)];
    [(90, false)];
    [(-100, false)];
    [(90, true); (-80, false)];
    [(70, false); (-60, true)];
    [(50, false); (-40, false)];
    [(30, true); (-20, false)];
    [(10, false)] ].

(** The statements that issue the table: the moves of a row back to back,
    one dwell after each row, every distance being [scale] times the
    number of the table. *)
Definition script_of_table (scale : Z) (table : list (list (Z * bool))) : list statement :=
  flat_map (fun row => map (fun mv => Move (scale * fst mv) (snd mv)) row ++ [Dwell]) table.

(** ** Reading a log *)

(** The board after the calls of [t], in order. *)
Definition replay (s : board) (t : list event) : board := fold_left perform t s.

(** The calls made between board [s] and a later board [s']. *)
Definition emitted (s s' : board) : list event := drop (length (log s)) (log s').

(** The levels written to [pin], in order. *)
Fixpoint writes_to (pin : Z) (t : list event) : list level :=
  match t with
  | [] => []
  | DigitalWrite p v :: t' => if p =? pin then v :: writes_to pin t' else writes_to pin t'
  | _ :: t' => writes_to pin t'
  end.

(** The pulses on [pin]: a HIGH write immediately followed by a LOW write. *)
Fixpoint pulses (pin : Z) (t : list event) : nat :=
  match t with
  | [] => 0
  | e :: t' =>
      match e, t' with
      | DigitalWrite p HIGH, DigitalWrite q LOW :: _ =>
          if (p =? pin) && (q =? pin) then S (pulses pin t') else pulses pin t'
      | _, _ => pulses pin t'
      end
  end.

Definition is_write_to (pin : Z) (e : event) : Prop :=
  match e with DigitalWrite p _ => p = pin | _ => False end.

Definition is_write_or_delay (e : event) : Prop :=
  match e with DigitalWrite _ _ | Delay _ => True | _ => False end.

(** [n] pulses on Input B with nothing in between. *)
Fixpoint pulse_train (n : nat) : list event :=
  match n with
  | O => []
  | S n' => DigitalWrite InputB HIGH :: DigitalWrite InputB LOW :: pulse_train n'
  end.

(** The calls of one [MoveCommand], in closed form: the blip on Enable when
    the alternate speed is asked for, the write of Input A, the pulses. *)
Definition enable_blip (cfg : settings) (AltSpeed : bool) : list event :=
  if AltSpeed then
    [ DigitalWrite Enable LOW;
      Delay (ulong_of_double (inject_Z (MinAltPulse cfg) * 1.5));
      DigitalWrite Enable HIGH;
      Delay (ulong_of_double (inject_Z (MinAltPulse cfg) * 1.5)) ]
  else [].

Definition direction (cfg : settings) (distance : Z) : level :=
  if (distance <? 0) && negb (ReverseDirection cfg)
     || (0 <? distance) && ReverseDirection cfg
  then HIGH else LOW.

Definition MoveCommand_log (bits : positive) (cfg : settings) (distance : Z)
    (AltSpeed : bool) : list event :=
  enable_blip cfg AltSpeed
  ++ DigitalWrite InputA (direction cfg distance)
  :: pulse_train (Z.to_nat (abs bits distance)).

Definition statement_log (bits : positive) (cfg : settings) (st : statement) : list event :=
  match st with
  | Move distance AltSpeed => MoveCommand_log bits cfg distance AltSpeed
  | Dwell => [Delay (ulong_of_int (DwellTime cfg))]
  end.

(** The calls of [setup], in order. *)
Definition setup_log (cfg : settings) : list event :=
  [ PinMode Enable OUTPUT; PinMode InputA OUTPUT; PinMode InputB OUTPUT;
    PinMode HLFB INPUT_PULLUP; PinMode Eneg OUTPUT; PinMode Aneg OUTPUT;
    PinMode Bneg OUTPUT; PinMode Hneg OUTPUT; SerialBegin 9600;
    DigitalWrite Enable LOW; Delay (ulong_of_int (DwellTime cfg));
    DigitalWrite Eneg LOW; DigitalWrite Aneg LOW; DigitalWrite Bneg LOW;
    DigitalWrite Hneg LOW; DigitalWrite InputA LOW; DigitalWrite InputB LOW;
    DigitalWrite Enable HIGH; Delay (ulong_of_int (HomeTime cfg));
    Delay (ulong_of_int (DwellTime cfg)) ].

(** Every distance of the script is an [int]. *)
Definition int_script (bits : positive) (script : list statement) : Prop :=
  Forall (fun st => match st with Move d _ => is_int bits d | Dwell => True end) script.

(** A program that runs on fuel returns board [s'] from board [s]. *)
Definition returns (m : nat -> M unit) (s s' : board) : Prop :=
  exists fuel, m fuel s = Some (tt, s').

(** ** Reading the motion off a log *)

(** The level of [pin] after call [e], when it was [v] before. *)
Definition line_after (pin : Z) (v : level) (e : event) : level :=
  match e with
  | DigitalWrite p x => if p =? pin then x else v
  | _ => v
  end.

(** The level of [pin] after the calls of [t]. *)
Definition line_at (pin : Z) (v : level) (t : list event) : level :=
  fold_left (line_after pin) t v.

(** The header comment, lines 5-6 and 14: the motor moves by the number of
    pulses on Input B, in the direction given by the state of Input A.  A
    pulse counts +1 while Input A is LOW and -1 while it is HIGH. *)
Definition step_of (a : level) : Z :=
  match a with LOW => 1 | HIGH => -1 end.

(** The signed number of pulses of a log, Input A being at level [a] when
    the log starts. *)
Fixpoint travel (a : level) (t : list event) : Z :=
  match t with
  | [] => 0
  | e :: t' =>
      match e, t' with
      | DigitalWrite p HIGH, DigitalWrite q LOW :: _ =>
          if (p =? InputB) && (q =? InputB)
          then step_of a + travel (line_after InputA a e) t'
          else travel (line_after InputA a e) t'
      | _, _ => travel (line_after InputA a e) t'
      end
  end.

(** The time a log spends in [delay], in milliseconds. *)
Fixpoint waited (t : list event) : Z :=
  match t with
  | [] => 0
  | Delay ms :: t' => ms + waited t'
  | _ :: t' => waited t'
  end.

(** The sum of the distances of a script, and of their magnitudes. *)
Fixpoint script_distance (script : list statement) : Z :=
  match script with
  | [] => 0
  | Move d _ :: script' => d + script_distance script'
  | Dwell :: script' => script_distance script'
  end.

Fixpoint script_magnitude (script : list statement) : Z :=
  match script with
  | [] => 0
  | Move d _ :: script' => Z.abs d + script_magnitude script'
  | Dwell :: script' => script_magnitude script'
  end.

(** Every distance of the script is an [int] whose negation is one too. *)
Definition negatable_script (bits : positive) (script : list statement) : Prop :=
  Forall (fun st => match st with
                    | Move d _ => is_int bits d /\ d <> INT_MIN bits
                    | Dwell => True
                    end) script.

(** The calls a move or a dwell can make: a delay, or a write to one of
    the three lines of the motor. *)
Definition is_line_call (e : event) : Prop :=
  match e with
  | DigitalWrite p _ => p = Enable \/ p = InputA \/ p = InputB
  | Delay _ => True
  | _ => False
  end.

(** In the log [t], played from board [s], every write to [pin] finds
    [other] at level [v]. *)
Definition written_while (pin other : Z) (v : level) (s : board) (t : list event) : Prop :=
  forall before x after,
    t = before ++ DigitalWrite pin x :: after ->
    levels (replay s before) !! other = Some v.

(** In the log [t], played from board [s], every write goes to a pin that
    is in mode OUTPUT by then. *)
Definition writes_outputs (s : board) (t : list event) : Prop :=
  forall before pin x after,
    t = before ++ DigitalWrite pin x :: after ->
    modes (replay s before) !! pin = Some OUTPUT.

(** ** The monad and the log *)

Lemma bind_call {B} (e : event) (k : M B) (s : board) :
  (call e ;; k) s = k (perform s e).
Proof. reflexivity. Qed.

Lemma bind_Some {A B} (m : M A) (k : A -> M B) (s s' : board) (a : A) :
  m s = Some (a, s') -> (m ≫= k) s = k a s'.
Proof. intros H. unfold mbind, M_bind. now rewrite H. Qed.

Lemma bind_inv {A B} (m : M A) (k : A -> M B) (s : board) (r : B * board) :
  (m ≫= k) s = Some r -> exists a s', m s = Some (a, s') /\ k a s' = Some r.
Proof.
  unfold mbind, M_bind. destruct (m s) as [[a s']|]; [eauto | discriminate].
Qed.

Lemma log_perform (s : board) (e : event) : log (perform s e) = log s ++ [e].
Proof. now destruct e. Qed.

Lemma replay_app (s : board) (t u : list event) :
  replay s (t ++ u) = replay (replay s t) u.
Proof. apply fold_left_app. Qed.

Lemma log_replay (t : list event) : forall s, log (replay s t) = log s ++ t.
Proof.
  induction t as [|e t IH]; intros s; simpl.
  - now rewrite app_nil_r.
  - rewrite IH, log_perform, <- app_assoc. reflexivity.
Qed.

Lemma emitted_replay (s : board) (t : list event) : emitted s (replay s t) = t.
Proof. unfold emitted. rewrite log_replay. apply drop_app_length. Qed.

Lemma levels_perform_other (s : board) (e : event) (pin : Z) :
  ~ is_write_to pin e -> levels (perform s e) !! pin = levels s !! pin.
Proof.
  destruct e as [| |p v|]; simpl; intros H; try reflexivity.
  now apply lookup_insert_ne.
Qed.

(** Calls that do not write a pin leave its level alone. *)
Lemma levels_replay_other (pin : Z) (t : list event) : forall s,
  Forall (fun e => ~ is_write_to pin e) t ->
  levels (replay s t) !! pin = levels s !! pin.
Proof.
  induction t as [|e t IH]; intros s Ht; simpl; [reflexivity|].
  inversion Ht; subst. rewrite IH by assumption. now apply levels_perform_other.
Qed.

(** After a log that writes [pin], the pin holds the last level written. *)
Lemma levels_replay_last (pin : Z) (t : list event) : forall s,
  levels (replay s t) !! pin =
  match last (writes_to pin t) with
  | Some v => Some v
  | None => levels s !! pin
  end.
Proof.
  induction t as [|e t IH]; intros s; simpl; [reflexivity|].
  rewrite IH. destruct e as [| |p v|]; simpl; try reflexivity.
  destruct (Z.eqb_spec p pin) as [->|Hne].
  - rewrite last_cons. destruct (last (writes_to pin t)); [reflexivity|].
    apply lookup_insert_eq.
  - destruct (last (writes_to pin t)); [reflexivity|]. now apply lookup_insert_ne.
Qed.

Lemma writes_to_app (pin : Z) (t u : list event) :
  writes_to pin (t ++ u) = writes_to pin t ++ writes_to pin u.
Proof.
  induction t as [|e t IH]; simpl; [reflexivity|].
  destruct e as [| |p v|]; try assumption.
  destruct (p =? pin); simpl; now rewrite IH.
Qed.

Lemma writes_to_none (pin : Z) (t : list event) :
  Forall (fun e => ~ is_write_to pin e) t -> writes_to pin t = [].
Proof.
  induction 1 as [|e t He _ IH]; simpl; [reflexivity|].
  destruct e as [| |p v|]; try assumption.
  destruct (Z.eqb_spec p pin) as [->|]; [now destruct He | assumption].
Qed.

(** ** The pulse train *)

Lemma length_pulse_train (n : nat) : length (pulse_train n) = (2 * n)%nat.
Proof. induction n; simpl; lia. Qed.

Lemma pulses_pulse_train (n : nat) : pulses InputB (pulse_train n) = n.
Proof.
  induction n as [|n IH]; [reflexivity|].
  change (pulse_train (S n))
    with (DigitalWrite InputB HIGH :: DigitalWrite InputB LOW :: pulse_train n).
  cbn -[pulse_train]. destruct (pulse_train n) as [|e t] eqn:E; [now subst|].
  destruct e as [| |p [|]|]; now rewrite IH.
Qed.

Lemma pulse_train_writes (n : nat) : Forall (is_write_to InputB) (pulse_train n).
Proof. induction n; simpl; repeat constructor; assumption. Qed.

Lemma pulse_train_other (pin : Z) (n : nat) :
  pin <> InputB -> Forall (fun e => ~ is_write_to pin e) (pulse_train n).
Proof.
  intros Hne. induction n; simpl; repeat constructor; try assumption;
    simpl; congruence.
Qed.

Lemma writes_to_pulse_train (n : nat) :
  writes_to InputB (pulse_train n) = concat (replicate n [HIGH; LOW]).
Proof. induction n as [|n IH]; simpl; [reflexivity | now rewrite IH]. Qed.

(** A call that is not a write to [pin] neither starts nor ends a pulse. *)
Lemma pulses_cons_other (pin : Z) (e : event) (t : list event) :
  ~ is_write_to pin e -> pulses pin (e :: t) = pulses pin t.
Proof.
  intros He. destruct e as [| |p [|]|]; simpl; try reflexivity;
    destruct t as [|[| |q [|]|] t]; try reflexivity.
  simpl in He. destruct (Z.eqb_spec p pin); [contradiction | reflexivity].
Qed.

(** ** Two's complement [int] *)

Section IntFacts.

Variable bits : positive.

Lemma half_pos : 0 < half bits.
Proof. unfold half. apply Z.pow_pos_nonneg; lia. Qed.

Lemma wrap_int (z : Z) : is_int bits z -> wrap bits z = z.
Proof.
  unfold is_int, INT_MIN, INT_MAX, wrap. intros Hz.
  rewrite Z.mod_small; lia.
Qed.

Lemma is_int_0 : is_int bits 0.
Proof. pose proof half_pos. unfold is_int, INT_MIN, INT_MAX. lia. Qed.

Lemma is_int_INT_MIN : is_int bits (INT_MIN bits).
Proof. pose proof half_pos. unfold is_int, INT_MIN, INT_MAX. lia. Qed.

Lemma INT_MIN_neg : INT_MIN bits < 0.
Proof. pose proof half_pos. unfold INT_MIN. lia. Qed.

(** Away from [INT_MIN] the macro is the absolute value. *)
Lemma abs_Zabs (x : Z) : is_int bits x -> x <> INT_MIN bits -> abs bits x = Z.abs x.
Proof.
  unfold abs. intros Hx Hmin. destruct (Z.ltb_spec 0 x); [lia|].
  rewrite wrap_int; [lia|]. unfold is_int, INT_MIN, INT_MAX in *. lia.
Qed.

(** At [INT_MIN] the negation wraps back to [INT_MIN]. *)
Lemma abs_INT_MIN : abs bits (INT_MIN bits) = INT_MIN bits.
Proof.
  pose proof half_pos. unfold abs, wrap, INT_MIN.
  destruct (Z.ltb_spec 0 (- half bits)); [lia|].
  replace (- - half bits + half bits) with (2 * half bits) by lia.
  rewrite Z_mod_same_full. lia.
Qed.

Lemma abs_le_INT_MAX (x : Z) : is_int bits x -> abs bits x <= INT_MAX bits.
Proof.
  intros Hx. destruct (Z.eq_dec x (INT_MIN bits)) as [->|Hne].
  - rewrite abs_INT_MIN. pose proof half_pos. unfold INT_MIN, INT_MAX. lia.
  - rewrite abs_Zabs by assumption. unfold is_int, INT_MIN, INT_MAX in *. lia.
Qed.

End IntFacts.

(** ** Loops on fuel *)

(** More fuel never changes a result. *)
Lemma for_loop_fuel (cond : Z -> bool) (step : Z -> Z) (body : Z -> M unit)
    (fuel : nat) : forall fuel' count s r,
  for_loop fuel count cond step body s = Some r -> (fuel <= fuel')%nat ->
  for_loop fuel' count cond step body s = Some r.
Proof.
  induction fuel as [|fuel IH]; intros fuel' count s r H Hle; [discriminate|].
  destruct fuel' as [|fuel']; [lia|]. simpl in *.
  destruct (cond count); [|assumption].
  apply bind_inv in H as (a & s1 & Hb & Hrest).
  rewrite (bind_Some _ _ _ _ _ Hb). apply IH; [assumption | lia].
Qed.

(** The pulse loop of [MoveCommand] counting from [count] up to a bound
    that an [int] can hold: it emits one pulse per remaining count. *)
Lemma pulse_loop_returns (bits : positive) (n : Z) :
  n <= INT_MAX bits -> forall fuel count s,
  0 <= count -> (Z.to_nat (n - count) < fuel)%nat ->
  for_loop fuel count (fun count => count <? n) (fun count => wrap bits (count + 1))
    (fun _ => digitalWrite InputB HIGH ;; digitalWrite InputB LOW) s
  = Some (tt, replay s (pulse_train (Z.to_nat (n - count)))).
Proof.
  intros Hn. induction fuel as [|fuel IH]; intros count s Hc Hfuel; [lia|].
  cbn [for_loop]. destruct (Z.ltb_spec count n) as [Hlt|Hge].
  - rewrite (bind_Some _ _ s (replay s (pulse_train 1)) tt) by reflexivity.
    rewrite wrap_int.
    + rewrite IH by lia.
      replace (Z.to_nat (n - count)) with (S (Z.to_nat (n - (count + 1)))) by lia.
      reflexivity.
    + pose proof (half_pos bits). unfold is_int, INT_MIN, INT_MAX in *. lia.
  - replace (Z.to_nat (n - count)) with 0%nat by lia. reflexivity.
Qed.

(** ** [MoveCommand] and scripts of moves *)

Section Runs.

Variable bits : positive.
Variable cfg : settings.

Lemma MoveCommand_returns (distance : Z) (AltSpeed : bool) (s : board) (fuel : nat) :
  is_int bits distance -> (Z.to_nat (abs bits distance) < fuel)%nat ->
  MoveCommand bits cfg fuel distance AltSpeed s
  = Some (tt, replay s (MoveCommand_log bits cfg distance AltSpeed)).
Proof.
  intros Hd Hfuel. unfold MoveCommand, MoveCommand_log.
  rewrite (bind_Some _ _ s (replay s (enable_blip cfg AltSpeed)) tt)
    by now destruct AltSpeed.
  rewrite (bind_Some _ _ _
    (replay s (enable_blip cfg AltSpeed ++ [DigitalWrite InputA (direction cfg distance)])) tt).
  - rewrite pulse_loop_returns.
    + rewrite Z.sub_0_r, <- replay_app, <- app_assoc. reflexivity.
    + now apply abs_le_INT_MAX.
    + lia.
    + lia.
  - rewrite replay_app. unfold direction.
    now destruct (_ || _).
Qed.

Lemma MoveCommand_fuel (distance : Z) (AltSpeed : bool) (s : board)
    (fuel fuel' : nat) (r : unit * board) :
  MoveCommand bits cfg fuel distance AltSpeed s = Some r -> (fuel <= fuel')%nat ->
  MoveCommand bits cfg fuel' distance AltSpeed s = Some r.
Proof.
  unfold MoveCommand. intros H Hle.
  apply bind_inv in H as (a & s1 & H1 & H).
  apply bind_inv in H as (b & s2 & H2 & H).
  rewrite (bind_Some _ _ _ _ _ H1), (bind_Some _ _ _ _ _ H2).
  eapply for_loop_fuel; eassumption.
Qed.

(** Whatever the fuel, a call that returns has made the calls of
    [MoveCommand_log] and nothing else. *)
Lemma MoveCommand_returns_inv (distance : Z) (AltSpeed : bool) (s s' : board) :
  is_int bits distance ->
  returns (fun fuel => MoveCommand bits cfg fuel distance AltSpeed) s s' ->
  s' = replay s (MoveCommand_log bits cfg distance AltSpeed).
Proof.
  intros Hd [fuel H].
  apply (MoveCommand_fuel _ _ _ _ (fuel + S (Z.to_nat (abs bits distance)))) in H; [|lia].
  rewrite MoveCommand_returns in H by (assumption || lia). congruence.
Qed.

Lemma MoveCommand_terminates (distance : Z) (AltSpeed : bool) (s : board) :
  is_int bits distance ->
  returns (fun fuel => MoveCommand bits cfg fuel distance AltSpeed) s
    (replay s (MoveCommand_log bits cfg distance AltSpeed)).
Proof.
  intros Hd. exists (S (Z.to_nat (abs bits distance))).
  apply MoveCommand_returns; [assumption | lia].
Qed.

(** A script runs to its end as soon as the fuel covers its longest move. *)
Lemma run_returns (script : list statement) :
  int_script bits script ->
  exists fuel, forall fuel' s, (fuel <= fuel')%nat ->
    run bits cfg fuel' script s
    = Some (tt, replay s (flat_map (statement_log bits cfg) script)).
Proof.
  induction 1 as [|st script Hst _ [fuel IH]].
  - exists 0%nat. reflexivity.
  - destruct st as [d a|].
    + exists (fuel + S (Z.to_nat (abs bits d)))%nat. intros fuel' s Hle.
      cbn [run foldr execute flat_map statement_log].
      rewrite (bind_Some _ _ _ _ _ (MoveCommand_returns d a s fuel' Hst ltac:(lia))).
      fold (run bits cfg fuel' script). rewrite IH by lia.
      now rewrite replay_app.
    + exists fuel. intros fuel' s Hle.
      cbn [run foldr execute flat_map statement_log].
      unfold delay. rewrite bind_call.
      fold (run bits cfg fuel' script). now rewrite IH by lia.
Qed.

End Runs.

(** ** What one [MoveCommand] writes *)

Section MoveCommandLog.

Variable bits : positive.
Variable cfg : settings.
Variable distance : Z.
Variable AltSpeed : bool.

Lemma writes_to_InputA_MoveCommand :
  writes_to InputA (MoveCommand_log bits cfg distance AltSpeed) = [direction cfg distance].
Proof.
  unfold MoveCommand_log. rewrite writes_to_app. cbn [writes_to].
  rewrite (writes_to_none InputA (pulse_train _)) by now apply pulse_train_other.
  now destruct AltSpeed.
Qed.

Lemma writes_to_InputB_MoveCommand :
  writes_to InputB (MoveCommand_log bits cfg distance AltSpeed)
  = concat (replicate (Z.to_nat (abs bits distance)) [HIGH; LOW]).
Proof.
  unfold MoveCommand_log. rewrite writes_to_app. cbn [writes_to].
  rewrite writes_to_pulse_train. now destruct AltSpeed.
Qed.

Lemma writes_to_Enable_MoveCommand :
  writes_to Enable (MoveCommand_log bits cfg distance AltSpeed) = if AltSpeed then [LOW; HIGH] else [].
Proof.
  unfold MoveCommand_log. rewrite writes_to_app. cbn [writes_to].
  rewrite (writes_to_none Enable (pulse_train _)) by now apply pulse_train_other.
  now destruct AltSpeed.
Qed.

Lemma pulses_MoveCommand :
  pulses InputB (MoveCommand_log bits cfg distance AltSpeed) = Z.to_nat (abs bits distance).
Proof.
  unfold MoveCommand_log.
  destruct AltSpeed; cbn [enable_blip app];
    rewrite !pulses_cons_other by (simpl; discriminate || tauto);
    apply pulses_pulse_train.
Qed.

Lemma MoveCommand_writes_and_delays : Forall is_write_or_delay (MoveCommand_log bits cfg distance AltSpeed).
Proof.
  unfold MoveCommand_log. apply Forall_app. split.
  - destruct AltSpeed; repeat constructor.
  - constructor; [exact I|].
    eapply Forall_impl; [apply pulse_train_writes|].
    now intros [].
Qed.

End MoveCommandLog.

Lemma direction_HIGH (cfg : settings) (d : Z) :
  direction cfg d = HIGH <->
  (d < 0 /\ ReverseDirection cfg = false) \/ (0 < d /\ ReverseDirection cfg = true).
Proof.
  unfold direction.
  destruct (Z.ltb_spec d 0), (Z.ltb_spec 0 d), (ReverseDirection cfg); simpl;
    split; intros Hv; try discriminate; try reflexivity; try lia; auto;
    destruct Hv as [[? ?]|[? ?]]; try discriminate; lia.
Qed.

Lemma direction_reversed (cfg : settings) (d : Z) :
  d <> 0 ->
  direction (with_ReverseDirection (negb (ReverseDirection cfg)) cfg) d
  = invert (direction cfg d).
Proof.
  unfold direction. cbn [ReverseDirection with_ReverseDirection]. intros Hd.
  destruct (Z.ltb_spec d 0), (Z.ltb_spec 0 d), (ReverseDirection cfg);
    simpl; try reflexivity; lia.
Qed.

(** The argument [MinAltPulse*1.5] of [delay], once converted: the product
    rounded down to whole milliseconds. *)
Lemma alt_delay_floor (m : Z) :
  0 <= m < 2 ^ 31 -> ulong_of_double (inject_Z m * 1.5) = 3 * m / 2.
Proof.
  intros Hm. unfold ulong_of_double. cbn [Qnum Qden Qmult inject_Z].
  change (Z.pos (1 * 10)) with (2 * 5). replace (m * 15) with (3 * m * 5) by lia.
  rewrite Z.quot_div_nonneg by lia.
  rewrite Z.div_mul_cancel_r by lia.
  apply Z.mod_small. split; [apply Z.div_pos; lia|].
  apply Z.div_lt_upper_bound; lia.
Qed.

Lemma alt_delay_even (m : Z) :
  0 <= m < 2 ^ 31 -> Z.even m = true ->
  (inject_Z (ulong_of_double (inject_Z m * 1.5)) == inject_Z m * 1.5)%Q.
Proof.
  intros Hm Heven. rewrite alt_delay_floor by assumption.
  apply Zeven_bool_iff, Zeven_ex in Heven as [k ->].
  replace (3 * (2 * k)) with (3 * k * 2) by lia. rewrite Z.div_mul by lia.
  unfold Qeq. cbn [Qnum Qden Qmult inject_Z]. lia.
Qed.

Lemma alt_delay_odd (m : Z) :
  0 <= m < 2 ^ 31 -> Z.odd m = true ->
  (inject_Z (ulong_of_double (inject_Z m * 1.5)) + 0.5 == inject_Z m * 1.5)%Q.
Proof.
  intros Hm Hodd. rewrite alt_delay_floor by assumption.
  apply Zodd_bool_iff, Zodd_ex in Hodd as [k ->].
  replace (3 * (2 * k + 1)) with (1 + (3 * k + 1) * 2) by lia.
  rewrite Z.div_add by lia. change (1 / 2) with 0.
  unfold Qeq. cbn [Qnum Qden Qmult Qplus inject_Z]. lia.
Qed.

(** ** The examples of the specification *)

Example MoveCommand_minus_3_alt :
  MoveCommand 16 sketch_settings 4 (-3) true power_on
  = Some (tt, replay power_on
      [ DigitalWrite Enable LOW; Delay 15; DigitalWrite Enable HIGH; Delay 15;
        DigitalWrite InputA HIGH;
        DigitalWrite InputB HIGH; DigitalWrite InputB LOW;
        DigitalWrite InputB HIGH; DigitalWrite InputB LOW;
        DigitalWrite InputB HIGH; DigitalWrite InputB LOW ]).
Proof. reflexivity. Qed.

(** Three pulses need four tests of the loop condition. *)
Example MoveCommand_minus_3_short_of_fuel :
  MoveCommand 16 sketch_settings 3 (-3) true power_on = None.
Proof. reflexivity. Qed.

Example MoveCommand_minus_2000_alt :
  exists s',
    returns (fun fuel => MoveCommand 16 sketch_settings fuel (-2000) true) power_on s'
    /\ emitted power_on s'
       = [ DigitalWrite Enable LOW; Delay 15; DigitalWrite Enable HIGH; Delay 15;
           DigitalWrite InputA HIGH ] ++ pulse_train 2000
    /\ pulses InputB (emitted power_on s') = 2000%nat.
Proof.
  eexists. split.
  - apply MoveCommand_terminates. unfold is_int, INT_MIN, INT_MAX, half. simpl. lia.
  - rewrite emitted_replay, pulses_MoveCommand. split; reflexivity.
Qed.

Example MoveCommand_0 :
  MoveCommand 16 sketch_settings 1 0 false power_on
  = Some (tt, replay power_on [DigitalWrite InputA LOW]).
Proof. reflexivity. Qed.

(** ** The pulse count *)

(** Away from [INT_MIN], [MoveCommand] returns having emitted exactly
    [|distance|] pulses on Input B, back to back after the write of
    Input A, and no other write to Input B. *)
Lemma MoveCommand_pulse_count (bits : positive) (cfg : settings) (distance : Z)
    (AltSpeed : bool) (s : board) :
  is_int bits distance -> distance <> INT_MIN bits ->
  exists s',
    returns (fun fuel => MoveCommand bits cfg fuel distance AltSpeed) s s'
    /\ pulses InputB (emitted s s') = Z.abs_nat distance
    /\ writes_to InputB (emitted s s')
       = concat (replicate (Z.abs_nat distance) [HIGH; LOW])
    /\ emitted s s' = enable_blip cfg AltSpeed
                      ++ DigitalWrite InputA (direction cfg distance)
                      :: pulse_train (Z.abs_nat distance).
Proof.
  intros Hd Hmin. eexists. split; [now apply MoveCommand_terminates|].
  rewrite emitted_replay, pulses_MoveCommand, writes_to_InputB_MoveCommand.
  unfold MoveCommand_log. rewrite abs_Zabs by assumption.
  rewrite <- Zabs2Nat.abs_nat_spec. auto.
Qed.

(** C1, at the failing input.  On a board with 16-bit [int],
    [MoveCommand(-32768)] returns after the single write of Input A: it
    emits no pulse and writes Input B not even once, where the magnitude
    of the distance is 32768. *)
Theorem C1_no_pulse_for_INT_MIN :
  MoveCommand 16 sketch_settings 1 (-32768) false power_on
  = Some (tt, replay power_on [DigitalWrite InputA HIGH])
  /\ (forall s', returns (fun fuel => MoveCommand 16 sketch_settings fuel (-32768) false)
                   power_on s' ->
        pulses InputB (emitted power_on s') = 0%nat
        /\ writes_to InputB (emitted power_on s') = [])
  /\ Z.abs (-32768) = 32768.
Proof.
  split; [reflexivity|]. split; [|reflexivity].
  intros s' Hs'. apply MoveCommand_returns_inv in Hs'.
  - subst s'. rewrite emitted_replay. split; reflexivity.
  - unfold is_int, INT_MIN, INT_MAX, half. simpl. lia.
Qed.

(** ** The direction line *)

(** C2.  Every call of [MoveCommand] with an [int] distance returns having
    written Input A exactly once; the level written, which the line then
    holds, is HIGH if [distance < 0] and [ReverseDirection] is false or
    [distance > 0] and [ReverseDirection] is true, and LOW otherwise, so LOW
    for the distance 0 whatever [ReverseDirection] is. *)
Theorem C2_direction_line (bits : positive) (cfg : settings) (distance : Z)
    (AltSpeed : bool) (s : board) :
  is_int bits distance ->
  exists v s',
    returns (fun fuel => MoveCommand bits cfg fuel distance AltSpeed) s s'
    /\ writes_to InputA (emitted s s') = [v]
    /\ levels s' !! InputA = Some v
    /\ (v = HIGH <->
        (distance < 0 /\ ReverseDirection cfg = false)
        \/ (0 < distance /\ ReverseDirection cfg = true))
    /\ (v = LOW <->
        ~ ((distance < 0 /\ ReverseDirection cfg = false)
           \/ (0 < distance /\ ReverseDirection cfg = true)))
    /\ (distance = 0 -> v = LOW).
Proof.
  intros Hd. exists (direction cfg distance). eexists.
  split; [now apply MoveCommand_terminates|].
  rewrite emitted_replay, levels_replay_last, writes_to_InputA_MoveCommand.
  repeat split; try apply direction_HIGH.
  - intros Hlow Hhigh. apply direction_HIGH in Hhigh. congruence.
  - intros Hnot. destruct (direction cfg distance) eqn:E; [reflexivity|].
    apply direction_HIGH in E. contradiction.
  - intros ->. unfold direction. now destruct (ReverseDirection cfg).
Qed.

Lemma C2_direction_line_witness :
  is_int 16 0 /\
  exists v s',
    returns (fun fuel => MoveCommand 16 (with_ReverseDirection true sketch_settings) fuel 0 false)
      power_on s'
    /\ writes_to InputA (emitted power_on s') = [v]
    /\ levels s' !! InputA = Some v
    /\ (v = HIGH <->
        (0 < 0 /\ ReverseDirection (with_ReverseDirection true sketch_settings) = false)
        \/ (0 < 0 /\ ReverseDirection (with_ReverseDirection true sketch_settings) = true))
    /\ (v = LOW <->
        ~ ((0 < 0 /\ ReverseDirection (with_ReverseDirection true sketch_settings) = false)
           \/ (0 < 0 /\ ReverseDirection (with_ReverseDirection true sketch_settings) = true)))
    /\ (0 = 0 -> v = LOW).
Proof.
  assert (H : is_int 16 0) by (unfold is_int, INT_MIN, INT_MAX, half; simpl; lia).
  split; [exact H|].
  exact (C2_direction_line 16 (with_ReverseDirection true sketch_settings) 0 false power_on H).
Defined.

(** C4.  For every nonzero [int] distance and either value of [AltSpeed],
    the call made with [ReverseDirection] negated writes to Input A the
    opposite of the level the call made with the setting as it is writes. *)
Theorem C4_reversal_inverts (bits : positive) (cfg : settings) (distance : Z)
    (AltSpeed : bool) (s : board) :
  is_int bits distance -> distance <> 0 ->
  exists v s1 s2,
    returns (fun fuel => MoveCommand bits cfg fuel distance AltSpeed) s s1
    /\ returns (fun fuel =>
         MoveCommand bits (with_ReverseDirection (negb (ReverseDirection cfg)) cfg)
           fuel distance AltSpeed) s s2
    /\ writes_to InputA (emitted s s1) = [v]
    /\ writes_to InputA (emitted s s2) = [invert v]
    /\ levels s1 !! InputA = Some v
    /\ levels s2 !! InputA = Some (invert v).
Proof.
  intros Hd Hnz. exists (direction cfg distance). do 2 eexists.
  split; [now apply MoveCommand_terminates|].
  split; [now apply MoveCommand_terminates|].
  rewrite !emitted_replay, !levels_replay_last, !writes_to_InputA_MoveCommand.
  rewrite direction_reversed by assumption. auto.
Qed.

Lemma C4_reversal_inverts_witness :
  (is_int 16 (-2000) /\ -2000 <> 0) /\
  exists v s1 s2,
    returns (fun fuel => MoveCommand 16 sketch_settings fuel (-2000) true) power_on s1
    /\ returns (fun fuel =>
         MoveCommand 16 (with_ReverseDirection (negb (ReverseDirection sketch_settings))
                           sketch_settings)
           fuel (-2000) true) power_on s2
    /\ writes_to InputA (emitted power_on s1) = [v]
    /\ writes_to InputA (emitted power_on s2) = [invert v]
    /\ levels s1 !! InputA = Some v
    /\ levels s2 !! InputA = Some (invert v).
Proof.
  assert (H : is_int 16 (-2000)) by (unfold is_int, INT_MIN, INT_MAX, half; simpl; lia).
  assert (H0 : -2000 <> 0) by lia.
  split; [split; assumption|].
  exact (C4_reversal_inverts 16 sketch_settings (-2000) true power_on H H0).
Defined.

(** ** The enable line *)

(** C6.  A call of [MoveCommand] with [AltSpeed] false returns without a
    single write to Enable, and the level of the line is after the call
    what it was before, for every [int] distance. *)
Theorem C6_enable_untouched (bits : positive) (cfg : settings) (distance : Z)
    (s : board) :
  is_int bits distance ->
  exists s',
    returns (fun fuel => MoveCommand bits cfg fuel distance false) s s'
    /\ writes_to Enable (emitted s s') = []
    /\ levels s' !! Enable = levels s !! Enable.
Proof.
  intros Hd. eexists. split; [now apply MoveCommand_terminates|].
  rewrite emitted_replay, levels_replay_last, writes_to_Enable_MoveCommand.
  auto.
Qed.

Lemma C6_enable_untouched_witness :
  is_int 16 3000 /\
  exists s',
    returns (fun fuel => MoveCommand 16 sketch_settings fuel 3000 false)
      (replay power_on [DigitalWrite Enable HIGH]) s'
    /\ writes_to Enable (emitted (replay power_on [DigitalWrite Enable HIGH]) s') = []
    /\ levels s' !! Enable = levels (replay power_on [DigitalWrite Enable HIGH]) !! Enable.
Proof.
  assert (H : is_int 16 3000) by (unfold is_int, INT_MIN, INT_MAX, half; simpl; lia).
  split; [exact H|].
  exact (C6_enable_untouched 16 sketch_settings 3000
           (replay power_on [DigitalWrite Enable HIGH]) H).
Defined.

(** C3, as stated, fails for an odd [MinAltPulse]: with [MinAltPulse = 5]
    the argument 7.5 of [delay] is converted to 7, so no delay of the blip
    lasts [MinAltPulse * 1.5] milliseconds. *)
Lemma C3_odd_MinAltPulse_counterexample :
  ~ exists s' ms rest,
      returns (fun fuel => MoveCommand 16 (with_MinAltPulse 5 sketch_settings) fuel 1 true)
        power_on s'
      /\ emitted power_on s'
         = DigitalWrite Enable LOW :: Delay ms :: DigitalWrite Enable HIGH :: Delay ms :: rest
      /\ (inject_Z ms == inject_Z (MinAltPulse (with_MinAltPulse 5 sketch_settings)) * 1.5)%Q.
Proof.
  intros (s' & ms & rest & Hs' & Hlog & Hms).
  apply MoveCommand_returns_inv in Hs';
    [|unfold is_int, INT_MIN, INT_MAX, half; simpl; lia].
  subst s'. rewrite emitted_replay in Hlog.
  injection Hlog as Hms' _. subst ms. discriminate Hms.
Qed.

(** C3, amended.  With [AltSpeed] true and a [MinAltPulse] that is not
    negative, [MoveCommand] writes Enable LOW, delays, writes Enable HIGH and
    delays again, then writes Input A, then emits the pulses, and nothing
    else.  Both delays last [MinAltPulse * 1.5] milliseconds rounded down
    to a whole millisecond: exactly [MinAltPulse * 1.5] for an even
    [MinAltPulse], half a millisecond less for an odd one, and 15 for
    [MinAltPulse = 10]. *)
Theorem C3_enable_blip (bits : positive) (cfg : settings) (distance : Z) (s : board) :
  is_int bits distance -> 0 <= MinAltPulse cfg < 2 ^ 31 ->
  exists ms s',
    returns (fun fuel => MoveCommand bits cfg fuel distance true) s s'
    /\ emitted s s'
       = [ DigitalWrite Enable LOW; Delay ms; DigitalWrite Enable HIGH; Delay ms;
           DigitalWrite InputA (direction cfg distance) ]
         ++ pulse_train (Z.to_nat (abs bits distance))
    /\ ms = 3 * MinAltPulse cfg / 2
    /\ (Z.even (MinAltPulse cfg) = true ->
        (inject_Z ms == inject_Z (MinAltPulse cfg) * 1.5)%Q)
    /\ (Z.odd (MinAltPulse cfg) = true ->
        (inject_Z ms + 0.5 == inject_Z (MinAltPulse cfg) * 1.5)%Q)
    /\ (MinAltPulse cfg = 10 -> ms = 15).
Proof.
  intros Hd Hm. exists (ulong_of_double (inject_Z (MinAltPulse cfg) * 1.5)).
  eexists. split; [now apply MoveCommand_terminates|].
  rewrite emitted_replay. split; [reflexivity|].
  split; [now apply alt_delay_floor|].
  split; [now apply alt_delay_even|].
  split; [now apply alt_delay_odd|].
  now intros ->.
Qed.

Lemma C3_enable_blip_witness :
  (is_int 16 (-2000) /\ 0 <= MinAltPulse sketch_settings < 2 ^ 31) /\
  exists ms s',
    returns (fun fuel => MoveCommand 16 sketch_settings fuel (-2000) true) power_on s'
    /\ emitted power_on s'
       = [ DigitalWrite Enable LOW; Delay ms; DigitalWrite Enable HIGH; Delay ms;
           DigitalWrite InputA (direction sketch_settings (-2000)) ]
         ++ pulse_train (Z.to_nat (abs 16 (-2000)))
    /\ ms = 3 * MinAltPulse sketch_settings / 2
    /\ (Z.even (MinAltPulse sketch_settings) = true ->
        (inject_Z ms == inject_Z (MinAltPulse sketch_settings) * 1.5)%Q)
    /\ (Z.odd (MinAltPulse sketch_settings) = true ->
        (inject_Z ms + 0.5 == inject_Z (MinAltPulse sketch_settings) * 1.5)%Q)
    /\ (MinAltPulse sketch_settings = 10 -> ms = 15).
Proof.
  assert (H : is_int 16 (-2000)) by (unfold is_int, INT_MIN, INT_MAX, half; simpl; lia).
  assert (H0 : 0 <= MinAltPulse sketch_settings < 2 ^ 31) by (simpl; lia).
  split; [split; assumption|].
  exact (C3_enable_blip 16 sketch_settings (-2000) power_on H H0).
Defined.

(** ** The pulse train and the direction line *)

(** C7.  The calls of one [MoveCommand] are: some calls that do not write
    Input B, the write of Input A, and then the pulse train, which holds
    writes to Input B only.  Input A is not written during the train, and
    after every part of the train it still holds the level written before
    the first pulse. *)
Theorem C7_direction_stable (bits : positive) (cfg : settings) (distance : Z)
    (AltSpeed : bool) (s : board) :
  is_int bits distance ->
  exists s' before v train,
    returns (fun fuel => MoveCommand bits cfg fuel distance AltSpeed) s s'
    /\ emitted s s' = before ++ DigitalWrite InputA v :: train
    /\ writes_to InputB before = []
    /\ Forall (is_write_to InputB) train
    /\ writes_to InputA train = []
    /\ forall k : nat,
         levels (replay s (before ++ DigitalWrite InputA v :: take k train)) !! InputA
         = Some v.
Proof.
  intros Hd.
  exists (replay s (MoveCommand_log bits cfg distance AltSpeed)),
    (enable_blip cfg AltSpeed), (direction cfg distance),
    (pulse_train (Z.to_nat (abs bits distance))).
  assert (Hother : Forall (fun e => ~ is_write_to InputA e)
                     (pulse_train (Z.to_nat (abs bits distance))))
    by now apply pulse_train_other.
  split; [now apply MoveCommand_terminates|].
  split; [apply emitted_replay|].
  split; [now destruct AltSpeed|].
  split; [apply pulse_train_writes|].
  split; [now apply writes_to_none|].
  intros k. rewrite levels_replay_last, writes_to_app. cbn [writes_to].
  rewrite (writes_to_none InputA (take k _)) by now apply Forall_take.
  now destruct AltSpeed.
Qed.

Lemma C7_direction_stable_witness :
  is_int 16 (-3) /\
  exists s' before v train,
    returns (fun fuel => MoveCommand 16 sketch_settings fuel (-3) true) power_on s'
    /\ emitted power_on s' = before ++ DigitalWrite InputA v :: train
    /\ writes_to InputB before = []
    /\ Forall (is_write_to InputB) train
    /\ writes_to InputA train = []
    /\ forall k : nat,
         levels (replay power_on (before ++ DigitalWrite InputA v :: take k train)) !! InputA
         = Some v.
Proof.
  assert (H : is_int 16 (-3)) by (unfold is_int, INT_MIN, INT_MAX, half; simpl; lia).
  split; [exact H|].
  exact (C7_direction_stable 16 sketch_settings (-3) true power_on H).
Defined.

(** ** Termination *)

Lemma abs_le_Zabs (bits : positive) (x : Z) : is_int bits x -> abs bits x <= Z.abs x.
Proof.
  intros Hx. destruct (Z.eq_dec x (INT_MIN bits)) as [->|Hne].
  - rewrite abs_INT_MIN. pose proof (INT_MIN_neg bits). lia.
  - rewrite abs_Zabs by assumption. lia.
Qed.

(** C8.  For every [int] distance and either value of [AltSpeed],
    [MoveCommand] returns, and does so as soon as the fuel exceeds
    [|distance|]: the loop is counted and bounded by the distance.  The
    calls it has made are writes and delays only. *)
Theorem C8_MoveCommand_terminates (bits : positive) (cfg : settings) (distance : Z)
    (AltSpeed : bool) (s : board) :
  is_int bits distance ->
  exists s',
    (forall fuel, (Z.abs_nat distance < fuel)%nat ->
       MoveCommand bits cfg fuel distance AltSpeed s = Some (tt, s'))
    /\ Forall is_write_or_delay (emitted s s').
Proof.
  intros Hd. exists (replay s (MoveCommand_log bits cfg distance AltSpeed)). split.
  - intros fuel Hfuel. apply MoveCommand_returns; [assumption|].
    pose proof (abs_le_Zabs bits distance Hd).
    rewrite Zabs2Nat.abs_nat_spec in Hfuel. lia.
  - rewrite emitted_replay. apply MoveCommand_writes_and_delays.
Qed.

Lemma C8_MoveCommand_terminates_witness :
  is_int 16 (-10000) /\
  exists s',
    (forall fuel, (Z.abs_nat (-10000) < fuel)%nat ->
       MoveCommand 16 sketch_settings fuel (-10000) false power_on = Some (tt, s'))
    /\ Forall is_write_or_delay (emitted power_on s').
Proof.
  assert (H : is_int 16 (-10000)) by (unfold is_int, INT_MIN, INT_MAX, half; simpl; lia).
  split; [exact H|].
  exact (C8_MoveCommand_terminates 16 sketch_settings (-10000) false power_on H).
Defined.

(** ** The main loop *)

Lemma int_script_loop_body : int_script 16 loop_body.
Proof.
  unfold int_script, loop_body.
  repeat (constructor;
          [try exact I; unfold is_int, INT_MIN, INT_MAX, half; simpl; lia|]).
  constructor.
Defined.

(** C5, as stated, fails: the distances of the calls are not the numbers of
    the table; the first call already asks for 1000 pulses where the table
    says 10. *)
Lemma C5_table_distances_counterexample :
  loop_body <> script_of_table 1 move_table
  /\ head loop_body = Some (Move 1000 false)
  /\ head (script_of_table 1 move_table) = Some (Move 10 false).
Proof. split; [discriminate | split; reflexivity]. Qed.

(** C5, amended.  The body of [loop] is the move table of the header
    comment with every distance multiplied by 100: the signs, the
    alternate-speed marks and the order are those of the table, the two
    moves of a row with an arrow are issued back to back, and one
    [delay(DwellTime)] follows every row.  Running [loop] is running that
    script, and on a board with 16-bit [int] one pass of [loop] returns
    having made the calls of those moves and dwells, in that order. *)
Theorem C5_loop_issues_table :
  loop_body = script_of_table 100 move_table
  /\ (forall bits cfg fuel,
        loop bits cfg fuel = run bits cfg fuel (script_of_table 100 move_table))
  /\ (forall cfg s, exists s',
        returns (loop 16 cfg) s s'
        /\ emitted s s'
           = flat_map (statement_log 16 cfg) (script_of_table 100 move_table)).
Proof.
  split; [reflexivity|]. split; [reflexivity|]. intros cfg s.
  destruct (run_returns 16 cfg loop_body int_script_loop_body) as [fuel Hrun].
  eexists. split; [exists fuel; now apply Hrun|].
  now rewrite emitted_replay.
Qed.

(** ** The pulse line between moves *)

Lemma setup_returns (cfg : settings) (s : board) :
  setup cfg s = Some (tt, replay s (setup_log cfg)).
Proof. reflexivity. Qed.

Lemma last_pulse_levels (n : nat) :
  last (concat (replicate n [HIGH; LOW]))
  = match n with O => None | S _ => Some LOW end.
Proof.
  induction n as [|n IH]; [reflexivity|].
  cbn [replicate concat app]. rewrite !last_cons, IH. now destruct n.
Qed.

(** A move leaves Input B LOW when it found it LOW, and also whenever it
    emits a pulse. *)
Lemma MoveCommand_leaves_InputB_LOW (bits : positive) (cfg : settings)
    (distance : Z) (AltSpeed : bool) (s : board) :
  levels s !! InputB = Some LOW \/ 0 < abs bits distance ->
  levels (replay s (MoveCommand_log bits cfg distance AltSpeed)) !! InputB = Some LOW.
Proof.
  intros H. rewrite levels_replay_last, writes_to_InputB_MoveCommand, last_pulse_levels.
  destruct (Z.to_nat (abs bits distance)) eqn:E; [|reflexivity].
  destruct H as [H|H]; [assumption | lia].
Qed.

Lemma script_leaves_InputB_LOW (bits : positive) (cfg : settings)
    (script : list statement) : forall s,
  levels s !! InputB = Some LOW ->
  levels (replay s (flat_map (statement_log bits cfg) script)) !! InputB = Some LOW.
Proof.
  induction script as [|st script IH]; intros s Hs; [assumption|].
  cbn [flat_map]. rewrite replay_app. apply IH. destruct st as [d a|].
  - apply MoveCommand_leaves_InputB_LOW. now left.
  - assumption.
Qed.

(** C10.  From any board, [setup] returns with Input B LOW.  A
    [MoveCommand] that finds Input B LOW returns with Input B LOW, its
    writes to Input B being HIGH, LOW, HIGH, LOW, ... in pairs.  Hence
    after [setup] and any number of the statements of any script of moves
    and dwells, in particular between any two moves of the sketch, Input B
    is LOW. *)
Theorem C10_pulse_line_LOW (bits : positive) (cfg : settings) (s0 s : board)
    (script : list statement) (distance : Z) (AltSpeed : bool) :
  int_script bits script -> is_int bits distance ->
  levels s !! InputB = Some LOW ->
  (exists s1, setup cfg s0 = Some (tt, s1) /\ levels s1 !! InputB = Some LOW)
  /\ (exists s' n,
        returns (fun fuel => MoveCommand bits cfg fuel distance AltSpeed) s s'
        /\ writes_to InputB (emitted s s') = concat (replicate n [HIGH; LOW])
        /\ levels s' !! InputB = Some LOW)
  /\ (exists s1,
        setup cfg s0 = Some (tt, s1)
        /\ forall k : nat, exists s2,
             returns (fun fuel => run bits cfg fuel (take k script)) s1 s2
             /\ levels s2 !! InputB = Some LOW).
Proof.
  intros Hscript Hd Hs.
  assert (Hsetup : levels (replay s0 (setup_log cfg)) !! InputB = Some LOW)
    by now rewrite levels_replay_last.
  split; [|split].
  - eexists. split; [apply setup_returns | assumption].
  - exists (replay s (MoveCommand_log bits cfg distance AltSpeed)),
      (Z.to_nat (abs bits distance)).
    split; [now apply MoveCommand_terminates|].
    split; [rewrite emitted_replay; apply writes_to_InputB_MoveCommand|].
    apply MoveCommand_leaves_InputB_LOW. now left.
  - eexists. split; [apply setup_returns|]. intros k.
    destruct (run_returns bits cfg (take k script)) as [fuel Hrun];
      [now apply Forall_take|].
    eexists. split; [exists fuel; now apply Hrun|].
    now apply script_leaves_InputB_LOW.
Qed.

Lemma int_script_two_loops : int_script 16 (loop_body ++ loop_body).
Proof. apply Forall_app. split; apply int_script_loop_body. Defined.

Lemma C10_pulse_line_LOW_witness :
  (int_script 16 (loop_body ++ loop_body) /\ is_int 16 0
   /\ levels (replay power_on [DigitalWrite InputB LOW]) !! InputB = Some LOW)
  /\ (exists s1, setup sketch_settings power_on = Some (tt, s1)
                 /\ levels s1 !! InputB = Some LOW)
  /\ (exists s' n,
        returns (fun fuel => MoveCommand 16 sketch_settings fuel 0 true)
          (replay power_on [DigitalWrite InputB LOW]) s'
        /\ writes_to InputB (emitted (replay power_on [DigitalWrite InputB LOW]) s')
           = concat (replicate n [HIGH; LOW])
        /\ levels s' !! InputB = Some LOW)
  /\ (exists s1,
        setup sketch_settings power_on = Some (tt, s1)
        /\ forall k : nat, exists s2,
             returns (fun fuel => run 16 sketch_settings fuel (take k (loop_body ++ loop_body)))
               s1 s2
             /\ levels s2 !! InputB = Some LOW).
Proof.
  assert (H : is_int 16 0) by (unfold is_int, INT_MIN, INT_MAX, half; simpl; lia).
  assert (H0 : levels (replay power_on [DigitalWrite InputB LOW]) !! InputB = Some LOW)
    by reflexivity.
  split; [split; [exact int_script_two_loops | split; assumption]|].
  exact (C10_pulse_line_LOW 16 sketch_settings power_on
           (replay power_on [DigitalWrite InputB LOW]) (loop_body ++ loop_body) 0 true
           int_script_two_loops H H0).
Defined.

(** ** Counting pulses over several moves *)

Lemma pulses_cons (pin : Z) (e : event) (t : list event) :
  pulses pin (e :: t)
  = (match e, t with
     | DigitalWrite p HIGH, DigitalWrite q LOW :: _ =>
         if (p =? pin)%Z && (q =? pin)%Z then 1 else 0
     | _, _ => 0
     end + pulses pin t)%nat.
Proof.
  destruct e as [| |p [|]|]; try reflexivity.
  destruct t as [|[| |q [|]|] t]; try reflexivity.
  cbn [pulses]. now destruct ((p =? pin) && (q =? pin)).
Qed.

(** A log that does not start with a write to [pin] completes no pulse of
    the log in front of it. *)
Lemma pulses_app (pin : Z) (t u : list event) :
  match u with [] => True | e :: _ => ~ is_write_to pin e end ->
  pulses pin (t ++ u) = (pulses pin t + pulses pin u)%nat.
Proof.
  intros Hu. induction t as [|e t IH]; [reflexivity|].
  change ((e :: t) ++ u) with (e :: t ++ u).
  rewrite (pulses_cons pin e (t ++ u)), (pulses_cons pin e t), IH.
  destruct t as [|e' t]; [|destruct e as [| |p [|]|]; cbn [app]; lia].
  destruct e as [| |p [|]|], u as [|[| |q [|]|] u]; cbn [app]; try lia.
  simpl in Hu. destruct (Z.eqb_spec q pin); [contradiction|].
  rewrite andb_false_r. lia.
Qed.

Lemma travel_cons (a : level) (e : event) (t : list event) :
  travel a (e :: t)
  = match e, t with
    | DigitalWrite p HIGH, DigitalWrite q LOW :: _ =>
        if (p =? InputB) && (q =? InputB) then step_of a else 0
    | _, _ => 0
    end + travel (line_after InputA a e) t.
Proof.
  destruct e as [| |p [|]|]; try reflexivity.
  destruct t as [|[| |q [|]|] t]; try reflexivity.
  cbn [travel]. now destruct ((p =? InputB) && (q =? InputB)).
Qed.

Lemma travel_app (a : level) (t u : list event) :
  match u with [] => True | e :: _ => ~ is_write_to InputB e end ->
  travel a (t ++ u) = travel a t + travel (line_at InputA a t) u.
Proof.
  intros Hu. revert a. induction t as [|e t IH]; intros a; [reflexivity|].
  change ((e :: t) ++ u) with (e :: t ++ u).
  rewrite (travel_cons a e (t ++ u)), (travel_cons a e t), IH.
  change (line_at InputA a (e :: t)) with (line_at InputA (line_after InputA a e) t).
  destruct t as [|e' t]; [|destruct e as [| |p [|]|]; cbn [app]; lia].
  destruct e as [| |p [|]|], u as [|[| |q [|]|] u]; cbn [app]; try lia.
  simpl in Hu. destruct (Z.eqb_spec q InputB); [contradiction|].
  rewrite andb_false_r. lia.
Qed.

Lemma line_at_app (pin : Z) (v : level) (t u : list event) :
  line_at pin v (t ++ u) = line_at pin (line_at pin v t) u.
Proof. apply fold_left_app. Qed.

Lemma line_at_other (pin : Z) (t : list event) : forall v,
  Forall (fun e => ~ is_write_to pin e) t -> line_at pin v t = v.
Proof.
  induction t as [|e t IH]; intros v Ht; [reflexivity|].
  inversion Ht as [|? ? He Ht']; subst.
  change (line_at pin v (e :: t)) with (line_at pin (line_after pin v e) t).
  rewrite IH by assumption. destruct e as [| |p x|]; try reflexivity.
  simpl in *. now destruct (Z.eqb_spec p pin).
Qed.

(** The pulses of a train all count in the direction Input A holds. *)
Lemma travel_pulse_train (a : level) (n : nat) :
  travel a (pulse_train n) = step_of a * Z.of_nat n.
Proof.
  induction n as [|n IH]; [simpl; lia|].
  change (pulse_train (S n))
    with (DigitalWrite InputB HIGH :: DigitalWrite InputB LOW :: pulse_train n).
  rewrite !travel_cons. cbn [line_after]. 
  change (InputB =? InputA) with false. change (InputB =? InputB) with true.
  cbn [andb]. rewrite IH. destruct (pulse_train n) as [|[| |q [|]|] t]; lia.
Qed.

Lemma line_at_MoveCommand (bits : positive) (cfg : settings) (d : Z) (alt : bool)
    (a : level) :
  line_at InputA a (MoveCommand_log bits cfg d alt) = direction cfg d.
Proof.
  unfold MoveCommand_log. rewrite line_at_app.
  change (line_at InputA ?v (DigitalWrite InputA ?x :: ?t)) with (line_at InputA x t).
  apply line_at_other. now apply pulse_train_other.
Qed.

Lemma travel_MoveCommand (bits : positive) (cfg : settings) (d : Z) (alt : bool)
    (a : level) :
  travel a (MoveCommand_log bits cfg d alt)
  = step_of (direction cfg d) * Z.of_nat (Z.to_nat (abs bits d)).
Proof.
  unfold MoveCommand_log. rewrite travel_app by (simpl; discriminate).
  replace (travel a (enable_blip cfg alt)) with 0 by now destruct alt.
  rewrite travel_cons.
  change (line_after InputA ?v (DigitalWrite InputA ?x)) with x.
  rewrite travel_pulse_train.
  destruct (direction cfg d), (pulse_train (Z.to_nat (abs bits d))) as [|[| |q [|]|] t];
    cbn; lia.
Qed.

(** The first call of a statement is never a write to Input B. *)
Lemma script_log_head (bits : positive) (cfg : settings) (script : list statement) :
  match flat_map (statement_log bits cfg) script with
  | [] => True
  | e :: _ => ~ is_write_to InputB e
  end.
Proof.
  destruct script as [|[d [|]|] script]; simpl; try discriminate; tauto.
Qed.

Lemma signed_distance (bits : positive) (cfg : settings) (d : Z) :
  is_int bits d -> d <> INT_MIN bits ->
  step_of (direction cfg d) * Z.of_nat (Z.to_nat (abs bits d))
  = if ReverseDirection cfg then - d else d.
Proof.
  intros Hd Hmin. rewrite abs_Zabs by assumption. rewrite Z2Nat.id by lia.
  unfold direction.
  destruct (Z.ltb_spec d 0), (Z.ltb_spec 0 d), (ReverseDirection cfg); simpl; lia.
Qed.

Lemma negatable_int_script (bits : positive) (script : list statement) :
  negatable_script bits script -> int_script bits script.
Proof.
  intros H. eapply Forall_impl; [exact H|].
  intros [d a|]; [now intros [Hd _] | trivial].
Qed.

Lemma pulses_script (bits : positive) (cfg : settings) (script : list statement) :
  negatable_script bits script ->
  Z.of_nat (pulses InputB (flat_map (statement_log bits cfg) script))
  = script_magnitude script.
Proof.
  induction 1 as [|st script Hst _ IH]; [reflexivity|].
  cbn [flat_map]. rewrite pulses_app by apply script_log_head.
  rewrite Nat2Z.inj_add, IH. destruct st as [d a|]; [|reflexivity].
  destruct Hst as [Hd Hmin]. cbn [statement_log script_magnitude].
  rewrite pulses_MoveCommand, abs_Zabs by assumption. lia.
Qed.

Lemma travel_script (bits : positive) (cfg : settings) (script : list statement) :
  negatable_script bits script -> forall a,
  travel a (flat_map (statement_log bits cfg) script)
  = if ReverseDirection cfg then - script_distance script else script_distance script.
Proof.
  induction 1 as [|st script Hst _ IH]; intros a;
    [now destruct (ReverseDirection cfg)|].
  cbn [flat_map]. rewrite travel_app by apply script_log_head. rewrite IH.
  destruct st as [d alt|]; cbn [statement_log script_distance].
  - destruct Hst as [Hd Hmin].
    rewrite travel_MoveCommand, signed_distance by assumption.
    destruct (ReverseDirection cfg); lia.
  - reflexivity.
Qed.

(** X1.  A move whose distance is an [int] other than [INT_MIN] returns
    having pulsed the motor by exactly its signed distance: counting a
    pulse +1 under Input A LOW and -1 under Input A HIGH, the pulses of the
    call add up to [distance], or to [- distance] when [ReverseDirection] is
    set, whatever level Input A held before the call and whatever
    [AltSpeed] is. *)
Theorem X1_MoveCommand_travel (bits : positive) (cfg : settings) (distance : Z)
    (AltSpeed : bool) (s : board) (a : level) :
  is_int bits distance -> distance <> INT_MIN bits ->
  exists s',
    returns (fun fuel => MoveCommand bits cfg fuel distance AltSpeed) s s'
    /\ travel a (emitted s s')
       = (if ReverseDirection cfg then - distance else distance).
Proof.
  intros Hd Hmin. eexists. split; [now apply MoveCommand_terminates|].
  rewrite emitted_replay, travel_MoveCommand. now apply signed_distance.
Qed.

Lemma X1_MoveCommand_travel_witness :
  (is_int 16 (-2000) /\ -2000 <> INT_MIN 16) /\
  exists s',
    returns (fun fuel => MoveCommand 16 sketch_settings fuel (-2000) true) power_on s'
    /\ travel LOW (emitted power_on s')
       = (if ReverseDirection sketch_settings then - -2000 else -2000).
Proof.
  assert (H : is_int 16 (-2000)) by (unfold is_int, INT_MIN, INT_MAX, half; simpl; lia).
  assert (H0 : -2000 <> INT_MIN 16) by (unfold INT_MIN, half; simpl; lia).
  split; [split; assumption|].
  exact (X1_MoveCommand_travel 16 sketch_settings (-2000) true power_on LOW H H0).
Defined.

(** X2.  Moves compose: a script whose distances are [int]s other than
    [INT_MIN] runs to its end, the number of pulses it has emitted is the sum
    of the magnitudes of its distances and their signed count is the sum of
    its distances (negated when [ReverseDirection] is set).  No pulse is lost
    or gained where a move follows another without a dwell. *)
Theorem X2_script_pulses_add_up (bits : positive) (cfg : settings)
    (script : list statement) (s : board) (a : level) :
  negatable_script bits script ->
  exists s',
    returns (fun fuel => run bits cfg fuel script) s s'
    /\ Z.of_nat (pulses InputB (emitted s s')) = script_magnitude script
    /\ travel a (emitted s s')
       = (if ReverseDirection cfg then - script_distance script
          else script_distance script).
Proof.
  intros Hscript.
  destruct (run_returns bits cfg script (negatable_int_script _ _ Hscript))
    as [fuel Hrun].
  eexists. split; [exists fuel; now apply Hrun|].
  rewrite emitted_replay. split; [now apply pulses_script | now apply travel_script].
Qed.

Lemma X2_script_pulses_add_up_witness :
  negatable_script 16 [Move 7000 false; Move (-6000) true; Dwell] /\
  exists s',
    returns (fun fuel => run 16 sketch_settings fuel [Move 7000 false; Move (-6000) true; Dwell])
      power_on s'
    /\ Z.of_nat (pulses InputB (emitted power_on s'))
       = script_magnitude [Move 7000 false; Move (-6000) true; Dwell]
    /\ travel HIGH (emitted power_on s')
       = (if ReverseDirection sketch_settings
          then - script_distance [Move 7000 false; Move (-6000) true; Dwell]
          else script_distance [Move 7000 false; Move (-6000) true; Dwell]).
Proof.
  assert (H : negatable_script 16 [Move 7000 false; Move (-6000) true; Dwell]).
  { unfold negatable_script.
    repeat (constructor;
            [try exact I; unfold is_int, INT_MIN, INT_MAX, half; simpl; lia|]).
    constructor. }
  split; [exact H|].
  exact (X2_script_pulses_add_up 16 sketch_settings
           [Move 7000 false; Move (-6000) true; Dwell] power_on HIGH H).
Defined.

Lemma negatable_loop_body (bits : positive) :
  10000 <= INT_MAX bits -> negatable_script bits loop_body.
Proof.
  intros Hmax. unfold negatable_script, loop_body.
  repeat (constructor;
          [try exact I; unfold is_int, INT_MIN, INT_MAX in *; lia|]).
  constructor.
Qed.

(** X3.  On every board whose [int] holds 10000, one pass of [loop] returns
    having emitted 100000 pulses whose signed count is zero: the motor ends
    each pass where it started it, for every value of the settings. *)
Theorem X3_loop_returns_to_start (bits : positive) (cfg : settings) (s : board)
    (a : level) :
  10000 <= INT_MAX bits ->
  exists s',
    returns (loop bits cfg) s s'
    /\ Z.of_nat (pulses InputB (emitted s s')) = 100000
    /\ travel a (emitted s s') = 0.
Proof.
  intros Hmax. pose proof (negatable_loop_body bits Hmax) as Hbody.
  destruct (run_returns bits cfg loop_body (negatable_int_script _ _ Hbody))
    as [fuel Hrun].
  eexists. split; [exists fuel; now apply Hrun|].
  rewrite emitted_replay, pulses_script, travel_script by assumption.
  split; [reflexivity | now destruct (ReverseDirection cfg)].
Qed.

Lemma X3_loop_returns_to_start_witness :
  10000 <= INT_MAX 16 /\
  exists s',
    returns (loop 16 sketch_settings) power_on s'
    /\ Z.of_nat (pulses InputB (emitted power_on s')) = 100000
    /\ travel LOW (emitted power_on s') = 0.
Proof.
  assert (H : 10000 <= INT_MAX 16) by (unfold INT_MAX, half; simpl; lia).
  split; [exact H|].
  exact (X3_loop_returns_to_start 16 sketch_settings power_on LOW H).
Defined.

(** ** Reversing the motor *)

Lemma abs_opp (bits : positive) (d : Z) :
  is_int bits d -> d <> INT_MIN bits -> abs bits (- d) = abs bits d.
Proof.
  intros Hd Hmin. rewrite !abs_Zabs; unfold is_int, INT_MIN, INT_MAX in *; lia.
Qed.

Lemma direction_opp (cfg : settings) (d : Z) :
  direction (with_ReverseDirection (negb (ReverseDirection cfg)) cfg) d
  = direction cfg (- d).
Proof.
  unfold direction. cbn [ReverseDirection with_ReverseDirection].
  destruct (Z.ltb_spec d 0), (Z.ltb_spec 0 d), (Z.ltb_spec (- d) 0),
    (Z.ltb_spec 0 (- d)), (ReverseDirection cfg); simpl; try reflexivity; lia.
Qed.

(** X4.  Negating [ReverseDirection] is negating the distance: for an [int]
    distance other than [INT_MIN], the move made with the setting negated
    makes the very calls of the move by [- distance] made with the setting as
    it is, and leaves the same board. *)
Theorem X4_reversal_is_negation (bits : positive) (cfg : settings) (distance : Z)
    (AltSpeed : bool) (s : board) :
  is_int bits distance -> distance <> INT_MIN bits ->
  exists s',
    returns (fun fuel =>
               MoveCommand bits (with_ReverseDirection (negb (ReverseDirection cfg)) cfg)
                 fuel distance AltSpeed) s s'
    /\ returns (fun fuel => MoveCommand bits cfg fuel (- distance) AltSpeed) s s'.
Proof.
  intros Hd Hmin.
  exists (replay s (MoveCommand_log bits cfg (- distance) AltSpeed)). split.
  - replace (MoveCommand_log bits cfg (- distance) AltSpeed)
      with (MoveCommand_log bits (with_ReverseDirection (negb (ReverseDirection cfg)) cfg)
              distance AltSpeed).
    + now apply MoveCommand_terminates.
    + unfold MoveCommand_log. now rewrite direction_opp, abs_opp.
  - apply MoveCommand_terminates. unfold is_int, INT_MIN, INT_MAX in *. lia.
Qed.

Lemma X4_reversal_is_negation_witness :
  (is_int 16 3000 /\ 3000 <> INT_MIN 16) /\
  exists s',
    returns (fun fuel =>
               MoveCommand 16
                 (with_ReverseDirection (negb (ReverseDirection sketch_settings))
                    sketch_settings)
                 fuel 3000 true) power_on s'
    /\ returns (fun fuel => MoveCommand 16 sketch_settings fuel (- 3000) true) power_on s'.
Proof.
  assert (H : is_int 16 3000) by (unfold is_int, INT_MIN, INT_MAX, half; simpl; lia).
  assert (H0 : 3000 <> INT_MIN 16) by (unfold INT_MIN, half; simpl; lia).
  split; [split; assumption|].
  exact (X4_reversal_is_negation 16 sketch_settings 3000 true power_on H H0).
Defined.

(** ** What a move leaves alone *)

Lemma MoveCommand_line_calls (bits : positive) (cfg : settings) (d : Z) (alt : bool) :
  Forall is_line_call (MoveCommand_log bits cfg d alt).
Proof.
  unfold MoveCommand_log. apply Forall_app. split.
  - destruct alt; repeat constructor; simpl; auto.
  - constructor; [simpl; auto|].
    eapply Forall_impl; [apply pulse_train_writes|].
    intros [| |p x|]; simpl; auto.
Qed.

Lemma script_line_calls (bits : positive) (cfg : settings) (script : list statement) :
  Forall is_line_call (flat_map (statement_log bits cfg) script).
Proof.
  induction script as [|[d a|] script IH]; cbn [flat_map statement_log].
  - constructor.
  - apply Forall_app. split; [apply MoveCommand_line_calls | assumption].
  - constructor; [exact I | assumption].
Qed.

Lemma modes_replay_line_calls (t : list event) : forall s,
  Forall is_line_call t -> modes (replay s t) = modes s.
Proof.
  induction t as [|e t IH]; intros s Ht; [reflexivity|].
  inversion Ht as [|? ? He Ht']; subst. cbn [replay fold_left].
  fold (replay (perform s e) t). rewrite IH by assumption.
  now destruct e.
Qed.

Lemma levels_replay_line_calls (pin : Z) (t : list event) (s : board) :
  Forall is_line_call t -> pin <> Enable -> pin <> InputA -> pin <> InputB ->
  levels (replay s t) !! pin = levels s !! pin.
Proof.
  intros Ht HE HA HB. apply levels_replay_other.
  eapply Forall_impl; [exact Ht|].
  intros [| |p x|]; simpl; try tauto.
  intros Hp Heq. subst p. destruct Hp as [?|[?|?]]; contradiction.
Qed.

(** X5.  A script of moves and dwells, hence every move, changes the mode
    of no pin and the level of no pin other than Enable, Input A and
    Input B: the four ground lines and the HLFB input stay as [setup] left
    them. *)
Theorem X5_script_frame (bits : positive) (cfg : settings) (script : list statement)
    (s : board) :
  int_script bits script ->
  exists s',
    returns (fun fuel => run bits cfg fuel script) s s'
    /\ modes s' = modes s
    /\ (forall pin, pin <> Enable -> pin <> InputA -> pin <> InputB ->
          levels s' !! pin = levels s !! pin)
    /\ Forall is_line_call (emitted s s').
Proof.
  intros Hscript. destruct (run_returns bits cfg script Hscript) as [fuel Hrun].
  eexists. split; [exists fuel; now apply Hrun|].
  pose proof (script_line_calls bits cfg script) as Hcalls.
  rewrite emitted_replay. split; [now apply modes_replay_line_calls|].
  split; [|assumption].
  intros pin HE HA HB. now apply levels_replay_line_calls.
Qed.

Lemma X5_script_frame_witness :
  int_script 16 loop_body /\
  exists s',
    returns (fun fuel => run 16 sketch_settings fuel loop_body)
      (replay power_on (setup_log sketch_settings)) s'
    /\ modes s' = modes (replay power_on (setup_log sketch_settings))
    /\ (forall pin, pin <> Enable -> pin <> InputA -> pin <> InputB ->
          levels s' !! pin = levels (replay power_on (setup_log sketch_settings)) !! pin)
    /\ Forall is_line_call (emitted (replay power_on (setup_log sketch_settings)) s').
Proof.
  split; [exact int_script_loop_body|].
  exact (X5_script_frame 16 sketch_settings loop_body
           (replay power_on (setup_log sketch_settings)) int_script_loop_body).
Defined.

(** ** What the lines hold when another is written *)

Lemma written_while_app (pin other : Z) (v : level) (s : board) (t u : list event) :
  written_while pin other v s t -> written_while pin other v (replay s t) u ->
  written_while pin other v s (t ++ u).
Proof.
  intros Ht Hu before x after Heq.
  apply app_eq_app in Heq as [l [[-> Hl]|[-> ->]]].
  - destruct l as [|e l].
    + rewrite app_nil_r in Hu. apply (Hu [] x after). symmetry. exact Hl.
    + injection Hl as <- ->. apply (Ht before x l). reflexivity.
  - rewrite replay_app. apply (Hu l x after). reflexivity.
Qed.

Lemma written_while_none (pin other : Z) (v : level) (s : board) (t : list event) :
  Forall (fun e => ~ is_write_to pin e) t -> written_while pin other v s t.
Proof.
  intros Ht before x after ->. apply Forall_app in Ht as [_ Ht].
  inversion Ht as [|? ? He _]; subst. now destruct He.
Qed.

Lemma written_while_stable (pin other : Z) (v : level) (s : board) (t : list event) :
  Forall (fun e => ~ is_write_to other e) t -> levels s !! other = Some v ->
  written_while pin other v s t.
Proof.
  intros Ht Hs before x after ->. apply Forall_app in Ht as [Ht _].
  now rewrite levels_replay_other.
Qed.

Lemma enable_blip_no_pulse (cfg : settings) (alt : bool) (pin : Z) :
  pin <> Enable -> Forall (fun e => ~ is_write_to pin e) (enable_blip cfg alt).
Proof.
  intros Hpin. destruct alt; repeat constructor; simpl; congruence.
Qed.

Lemma MoveCommand_leaves_Enable_HIGH (bits : positive) (cfg : settings) (d : Z)
    (alt : bool) (s : board) :
  levels s !! Enable = Some HIGH \/ alt = true ->
  levels (replay s (MoveCommand_log bits cfg d alt)) !! Enable = Some HIGH.
Proof.
  intros H. rewrite levels_replay_last, writes_to_Enable_MoveCommand.
  destruct alt; [reflexivity|]. now destruct H.
Qed.

Lemma script_leaves_Enable_HIGH (bits : positive) (cfg : settings)
    (script : list statement) : forall s,
  levels s !! Enable = Some HIGH ->
  levels (replay s (flat_map (statement_log bits cfg) script)) !! Enable = Some HIGH.
Proof.
  induction script as [|st script IH]; intros s Hs; [assumption|].
  cbn [flat_map]. rewrite replay_app. apply IH. destruct st as [d a|].
  - apply MoveCommand_leaves_Enable_HIGH. now left.
  - assumption.
Qed.

(** Within one move that starts with the motor enabled, every write to
    Input B finds Enable HIGH. *)
Lemma MoveCommand_pulses_enabled (bits : positive) (cfg : settings) (d : Z)
    (alt : bool) (s : board) :
  levels s !! Enable = Some HIGH ->
  written_while InputB Enable HIGH s (MoveCommand_log bits cfg d alt).
Proof.
  intros Hs. unfold MoveCommand_log. apply written_while_app.
  - apply written_while_none. now apply enable_blip_no_pulse.
  - apply written_while_stable.
    + constructor; [simpl; discriminate | now apply pulse_train_other].
    + rewrite levels_replay_last. destruct alt; [reflexivity | assumption].
Qed.

(** Within one move that starts with Input B LOW, every write to a line
    other than Input B finds Input B LOW. *)
Lemma MoveCommand_between_pulses (bits : positive) (cfg : settings) (d : Z)
    (alt : bool) (s : board) (pin : Z) :
  pin <> InputB -> levels s !! InputB = Some LOW ->
  written_while pin InputB LOW s (MoveCommand_log bits cfg d alt).
Proof.
  intros Hpin Hs. unfold MoveCommand_log. rewrite cons_middle, app_assoc.
  apply written_while_app.
  - apply written_while_stable; [|assumption].
    apply Forall_app. split; [apply enable_blip_no_pulse; discriminate|].
    repeat constructor. simpl. discriminate.
  - apply written_while_none. now apply pulse_train_other.
Qed.

Lemma script_pulses_enabled (bits : positive) (cfg : settings)
    (script : list statement) : forall s,
  levels s !! Enable = Some HIGH ->
  written_while InputB Enable HIGH s (flat_map (statement_log bits cfg) script).
Proof.
  induction script as [|st script IH]; intros s Hs.
  - now apply written_while_none.
  - cbn [flat_map]. apply written_while_app.
    + destruct st as [d a|]; [now apply MoveCommand_pulses_enabled|].
      apply written_while_none. repeat constructor. simpl. tauto.
    + apply IH. destruct st as [d a|]; [|assumption].
      apply MoveCommand_leaves_Enable_HIGH. now left.
Qed.

Lemma script_between_pulses (bits : positive) (cfg : settings)
    (script : list statement) (pin : Z) : forall s,
  pin <> InputB -> levels s !! InputB = Some LOW ->
  written_while pin InputB LOW s (flat_map (statement_log bits cfg) script).
Proof.
  induction script as [|st script IH]; intros s Hpin Hs.
  - now apply written_while_none.
  - cbn [flat_map]. apply written_while_app.
    + destruct st as [d a|]; [now apply MoveCommand_between_pulses|].
      apply written_while_none. repeat constructor. simpl. tauto.
    + apply IH; [assumption|]. destruct st as [d a|]; [|assumption].
      apply MoveCommand_leaves_InputB_LOW. now left.
Qed.

(** X6.  After [setup], whatever the script of moves and dwells that
    follows, the motor is enabled whenever it is pulsed: every write to
    Input B made by the script finds Enable HIGH, and Enable is HIGH again
    when the script ends, also where a move has blipped it. *)
Theorem X6_pulsed_only_while_enabled (bits : positive) (cfg : settings)
    (script : list statement) (s0 : board) :
  int_script bits script ->
  exists s1 s2,
    setup cfg s0 = Some (tt, s1)
    /\ returns (fun fuel => run bits cfg fuel script) s1 s2
    /\ levels s1 !! Enable = Some HIGH
    /\ written_while InputB Enable HIGH s1 (emitted s1 s2)
    /\ levels s2 !! Enable = Some HIGH.
Proof.
  intros Hscript. destruct (run_returns bits cfg script Hscript) as [fuel Hrun].
  assert (Hsetup : levels (replay s0 (setup_log cfg)) !! Enable = Some HIGH)
    by now rewrite levels_replay_last.
  do 2 eexists. split; [apply setup_returns|].
  split; [exists fuel; now apply Hrun|].
  rewrite emitted_replay. split; [assumption|].
  split; [now apply script_pulses_enabled | now apply script_leaves_Enable_HIGH].
Qed.

Lemma X6_pulsed_only_while_enabled_witness :
  int_script 16 loop_body /\
  exists s1 s2,
    setup sketch_settings power_on = Some (tt, s1)
    /\ returns (fun fuel => run 16 sketch_settings fuel loop_body) s1 s2
    /\ levels s1 !! Enable = Some HIGH
    /\ written_while InputB Enable HIGH s1 (emitted s1 s2)
    /\ levels s2 !! Enable = Some HIGH.
Proof.
  split; [exact int_script_loop_body|].
  exact (X6_pulsed_only_while_enabled 16 sketch_settings loop_body power_on
           int_script_loop_body).
Defined.

(** X7.  After [setup], whatever the script that follows, no pulse is cut:
    every write the script makes to Input A (a change of direction) and to
    Enable (a blip) finds Input B LOW. *)
Theorem X7_lines_change_between_pulses (bits : positive) (cfg : settings)
    (script : list statement) (s0 : board) :
  int_script bits script ->
  exists s1 s2,
    setup cfg s0 = Some (tt, s1)
    /\ returns (fun fuel => run bits cfg fuel script) s1 s2
    /\ written_while InputA InputB LOW s1 (emitted s1 s2)
    /\ written_while Enable InputB LOW s1 (emitted s1 s2).
Proof.
  intros Hscript. destruct (run_returns bits cfg script Hscript) as [fuel Hrun].
  assert (Hsetup : levels (replay s0 (setup_log cfg)) !! InputB = Some LOW)
    by now rewrite levels_replay_last.
  do 2 eexists. split; [apply setup_returns|].
  split; [exists fuel; now apply Hrun|].
  rewrite emitted_replay.
  split; now apply script_between_pulses.
Qed.

Lemma X7_lines_change_between_pulses_witness :
  int_script 16 loop_body /\
  exists s1 s2,
    setup sketch_settings power_on = Some (tt, s1)
    /\ returns (fun fuel => run 16 sketch_settings fuel loop_body) s1 s2
    /\ written_while InputA InputB LOW s1 (emitted s1 s2)
    /\ written_while Enable InputB LOW s1 (emitted s1 s2).
Proof.
  split; [exact int_script_loop_body|].
  exact (X7_lines_change_between_pulses 16 sketch_settings loop_body power_on
           int_script_loop_body).
Defined.

(** ** Pin modes *)

Lemma writes_outputs_app (s : board) (t u : list event) :
  writes_outputs s t -> writes_outputs (replay s t) u -> writes_outputs s (t ++ u).
Proof.
  intros Ht Hu before pin x after Heq.
  apply app_eq_app in Heq as [l [[-> Hl]|[-> ->]]].
  - destruct l as [|e l].
    + rewrite app_nil_r in Hu. apply (Hu [] pin x after). symmetry. exact Hl.
    + injection Hl as <- ->. apply (Ht before pin x l). reflexivity.
  - rewrite replay_app. apply (Hu l pin x after). reflexivity.
Qed.

Lemma writes_outputs_nil (s : board) : writes_outputs s [].
Proof. intros [|e before] pin x after H; discriminate H. Qed.

Lemma writes_outputs_cons (s : board) (e : event) (t : list event) :
  match e with
  | DigitalWrite pin _ => modes s !! pin = Some OUTPUT
  | _ => True
  end ->
  writes_outputs (perform s e) t -> writes_outputs s (e :: t).
Proof.
  intros He Ht [|e' before] pin x after Heq.
  - injection Heq as ->. exact He.
  - injection Heq as <- ->. apply (Ht before pin x after). reflexivity.
Qed.

(** [setup] sets the mode of every pin before it writes it. *)
Lemma setup_writes_outputs (cfg : settings) (s : board) :
  writes_outputs s (setup_log cfg).
Proof.
  unfold setup_log.
  repeat (apply writes_outputs_cons;
          [first [exact I | cbn; unfold Enable, InputA, InputB, HLFB, Eneg, Aneg,
                              Bneg, Hneg; now simplify_map_eq]|]).
  apply writes_outputs_nil.
Qed.

Lemma line_calls_write_outputs (s : board) (t : list event) :
  Forall is_line_call t ->
  modes s !! Enable = Some OUTPUT -> modes s !! InputA = Some OUTPUT ->
  modes s !! InputB = Some OUTPUT ->
  writes_outputs s t.
Proof.
  intros Ht HE HA HB before pin x after ->.
  apply Forall_app in Ht as [Hbefore Hwrite].
  rewrite modes_replay_line_calls by assumption.
  inversion Hwrite as [|? ? Hpin _]; subst.
  destruct Hpin as [->|[->| ->]]; assumption.
Qed.

Lemma setup_modes (cfg : settings) (s : board) (pin : Z) :
  pin ∈ [Enable; InputA; InputB; Eneg; Aneg; Bneg; Hneg] ->
  modes (replay s (setup_log cfg)) !! pin = Some OUTPUT.
Proof.
  intros Hpin. repeat (apply elem_of_cons in Hpin as [->|Hpin]);
    [..|now apply elem_of_nil in Hpin];
    cbn; unfold Enable, InputA, InputB, HLFB, Eneg, Aneg, Bneg, Hneg;
    now simplify_map_eq.
Qed.

(** X8.  From any board, [setup] followed by any script of moves and
    dwells writes only pins that are in mode OUTPUT by the time of the
    write: each of the seven pins written was given that mode earlier in
    [setup] and no later call changes a mode.  The HLFB pin, an input with
    pull-up, is never written. *)
Theorem X8_writes_go_to_outputs (bits : positive) (cfg : settings)
    (script : list statement) (s0 : board) :
  int_script bits script ->
  exists s1 s2,
    setup cfg s0 = Some (tt, s1)
    /\ returns (fun fuel => run bits cfg fuel script) s1 s2
    /\ writes_outputs s0 (emitted s0 s2)
    /\ writes_to HLFB (emitted s0 s2) = []
    /\ modes s2 !! HLFB = Some INPUT_PULLUP.
Proof.
  intros Hscript. destruct (run_returns bits cfg script Hscript) as [fuel Hrun].
  pose proof (script_line_calls bits cfg script) as Hcalls.
  do 2 eexists. split; [apply setup_returns|].
  split; [exists fuel; now apply Hrun|].
  rewrite <- replay_app, emitted_replay. split; [|split].
  - apply writes_outputs_app; [apply setup_writes_outputs|].
    apply line_calls_write_outputs; [assumption|..]; apply setup_modes;
      repeat constructor.
  - rewrite writes_to_app. replace (writes_to HLFB (setup_log cfg)) with (@nil level)
      by reflexivity.
    apply writes_to_none. eapply Forall_impl; [exact Hcalls|].
    intros [| |p x|]; simpl; try tauto.
    intros Hp Heq. subst p. destruct Hp as [?|[?|?]]; discriminate.
  - rewrite replay_app, modes_replay_line_calls by assumption.
    cbn; unfold Enable, InputA, InputB, HLFB, Eneg, Aneg, Bneg, Hneg.
    now simplify_map_eq.
Qed.

Lemma X8_writes_go_to_outputs_witness :
  int_script 16 loop_body /\
  exists s1 s2,
    setup sketch_settings power_on = Some (tt, s1)
    /\ returns (fun fuel => run 16 sketch_settings fuel loop_body) s1 s2
    /\ writes_outputs power_on (emitted power_on s2)
    /\ writes_to HLFB (emitted power_on s2) = []
    /\ modes s2 !! HLFB = Some INPUT_PULLUP.
Proof.
  split; [exact int_script_loop_body|].
  exact (X8_writes_go_to_outputs 16 sketch_settings loop_body power_on
           int_script_loop_body).
Defined.

(** ** The start-up sequence *)

(** X9.  From any board, [setup] returns with Enable HIGH and Input A,
    Input B and the four ground lines LOW.  Its last write is the one that
    raises Enable: by then Enable has been written LOW and held there
    through a delay of [DwellTime], the six other lines have been written
    LOW, and only the two delays for homing and dwelling follow. *)
Theorem X9_setup_enables_last (cfg : settings) (s0 : board) :
  exists s1 first rest,
    setup cfg s0 = Some (tt, s1)
    /\ emitted s0 s1
       = (first ++ DigitalWrite Enable LOW :: Delay (ulong_of_int (DwellTime cfg)) :: rest)
         ++ [ DigitalWrite Enable HIGH;
              Delay (ulong_of_int (HomeTime cfg));
              Delay (ulong_of_int (DwellTime cfg)) ]
    /\ writes_to Enable first = [] /\ writes_to Enable rest = []
    /\ (forall pin, pin ∈ [InputA; InputB; Eneg; Aneg; Bneg; Hneg] ->
          levels (replay s0 (first ++ DigitalWrite Enable LOW
                               :: Delay (ulong_of_int (DwellTime cfg)) :: rest)) !! pin
          = Some LOW
          /\ levels s1 !! pin = Some LOW)
    /\ levels s1 !! Enable = Some HIGH.
Proof.
  exists (replay s0 (setup_log cfg)), (take 9 (setup_log cfg)),
    (take 6 (drop 11 (setup_log cfg))).
  split; [apply setup_returns|].
  rewrite emitted_replay. split; [reflexivity|].
  split; [reflexivity|]. split; [reflexivity|].
  split; [|now rewrite levels_replay_last].
  intros pin Hpin. rewrite !levels_replay_last.
  repeat (apply elem_of_cons in Hpin as [->|Hpin]);
    [..|now apply elem_of_nil in Hpin]; split; reflexivity.
Qed.

(** ** Time spent waiting *)

Lemma waited_app (t u : list event) : waited (t ++ u) = waited t + waited u.
Proof.
  induction t as [|e t IH]; [reflexivity|].
  destruct e; cbn [app waited]; lia.
Qed.

Lemma waited_pulse_train (n : nat) : waited (pulse_train n) = 0.
Proof. induction n; [reflexivity | assumption]. Qed.

Lemma waited_MoveCommand (bits : positive) (cfg : settings) (d : Z) (alt : bool) :
  waited (MoveCommand_log bits cfg d alt)
  = if alt then 2 * ulong_of_double (inject_Z (MinAltPulse cfg) * 1.5) else 0.
Proof.
  unfold MoveCommand_log. rewrite waited_app. cbn [waited].
  rewrite waited_pulse_train. destruct alt; cbn [enable_blip waited]; lia.
Qed.

(** X10.  With settings that are not negative, the time a move spends in
    [delay] does not depend on its distance: twice [MinAltPulse * 1.5]
    rounded down with [AltSpeed], none without.  One pass of [loop], on a
    board whose [int] holds 10000, spends 15 dwell times and 12 such blip
    delays waiting, 15180 ms with the settings of the sketch. *)
Theorem X10_time_waited (bits : positive) (cfg : settings) (distance : Z)
    (AltSpeed : bool) (s : board) :
  is_int bits distance -> 10000 <= INT_MAX bits ->
  0 <= DwellTime cfg < 2 ^ 32 -> 0 <= MinAltPulse cfg < 2 ^ 31 ->
  (exists s',
     returns (fun fuel => MoveCommand bits cfg fuel distance AltSpeed) s s'
     /\ waited (emitted s s')
        = if AltSpeed then 2 * (3 * MinAltPulse cfg / 2) else 0)
  /\ (exists s',
        returns (loop bits cfg) s s'
        /\ waited (emitted s s')
           = 15 * DwellTime cfg + 12 * (3 * MinAltPulse cfg / 2))
  /\ 15 * DwellTime sketch_settings + 12 * (3 * MinAltPulse sketch_settings / 2) = 15180.
Proof.
  intros Hd Hmax Hdwell Hblip. split; [|split; [|reflexivity]].
  - eexists. split; [now apply MoveCommand_terminates|].
    rewrite emitted_replay, waited_MoveCommand, alt_delay_floor by assumption.
    reflexivity.
  - pose proof (negatable_loop_body bits Hmax) as Hbody.
    destruct (run_returns bits cfg loop_body (negatable_int_script _ _ Hbody))
      as [fuel Hrun].
    eexists. split; [exists fuel; now apply Hrun|].
    rewrite emitted_replay. unfold loop_body. cbn [flat_map statement_log].
    rewrite !waited_app, !waited_MoveCommand, alt_delay_floor by assumption.
    cbn [waited]. unfold ulong_of_int. rewrite Z.mod_small by assumption. lia.
Qed.

Lemma X10_time_waited_witness :
  (is_int 16 (-2000) /\ 10000 <= INT_MAX 16
   /\ 0 <= DwellTime sketch_settings < 2 ^ 32
   /\ 0 <= MinAltPulse sketch_settings < 2 ^ 31)
  /\ (exists s',
        returns (fun fuel => MoveCommand 16 sketch_settings fuel (-2000) true) power_on s'
        /\ waited (emitted power_on s')
           = if true then 2 * (3 * MinAltPulse sketch_settings / 2) else 0)
  /\ (exists s',
        returns (loop 16 sketch_settings) power_on s'
        /\ waited (emitted power_on s')
           = 15 * DwellTime sketch_settings + 12 * (3 * MinAltPulse sketch_settings / 2))
  /\ 15 * DwellTime sketch_settings + 12 * (3 * MinAltPulse sketch_settings / 2) = 15180.
Proof.
  assert (H : is_int 16 (-2000)) by (unfold is_int, INT_MIN, INT_MAX, half; simpl; lia).
  assert (H0 : 10000 <= INT_MAX 16) by (unfold INT_MAX, half; simpl; lia).
  assert (H1 : 0 <= DwellTime sketch_settings < 2 ^ 32) by (simpl; lia).
  assert (H2 : 0 <= MinAltPulse sketch_settings < 2 ^ 31) by (simpl; lia).
  split; [repeat split; first [apply H | apply H0 | apply H1 | apply H2]|].
  exact (X10_time_waited 16 sketch_settings (-2000) true power_on H H0 H1 H2).
Defined.

(** ** The blip and a disabled motor *)

(** X11.  A move with [AltSpeed] ends with Enable HIGH whatever level
    Enable had before: on a board whose motor is disabled the blip enables
    it, and it does so before the first pulse, so the pulses of such a move
    are all sent with Enable HIGH. *)
Theorem X11_blip_enables (bits : positive) (cfg : settings) (distance : Z)
    (s : board) :
  is_int bits distance ->
  exists s',
    returns (fun fuel => MoveCommand bits cfg fuel distance true) s s'
    /\ writes_to Enable (emitted s s') = [LOW; HIGH]
    /\ levels s' !! Enable = Some HIGH
    /\ written_while InputB Enable HIGH s (emitted s s').
Proof.
  intros Hd. eexists. split; [now apply MoveCommand_terminates|].
  rewrite emitted_replay, writes_to_Enable_MoveCommand.
  split; [reflexivity|].
  split; [apply MoveCommand_leaves_Enable_HIGH; now right|].
  unfold MoveCommand_log. apply written_while_app.
  - apply written_while_none. now apply enable_blip_no_pulse.
  - apply written_while_stable.
    + constructor; [simpl; discriminate | now apply pulse_train_other].
    + now rewrite levels_replay_last.
Qed.

Lemma X11_blip_enables_witness :
  is_int 16 5000 /\
  exists s',
    returns (fun fuel => MoveCommand 16 sketch_settings fuel 5000 true)
      (replay power_on [DigitalWrite Enable LOW]) s'
    /\ writes_to Enable (emitted (replay power_on [DigitalWrite Enable LOW]) s')
       = [LOW; HIGH]
    /\ levels s' !! Enable = Some HIGH
    /\ written_while InputB Enable HIGH (replay power_on [DigitalWrite Enable LOW])
         (emitted (replay power_on [DigitalWrite Enable LOW]) s').
Proof.
  assert (H : is_int 16 5000) by (unfold is_int, INT_MIN, INT_MAX, half; simpl; lia).
  split; [exact H|].
  exact (X11_blip_enables 16 sketch_settings 5000
           (replay power_on [DigitalWrite Enable LOW]) H).
Defined.
